(** * FramePolyglot: the streaming transcription pipeline of [fame_transcription.py]

    A shallow embedding of the host program that streams microphone audio from
    a Frame device, decodes it with a speech-to-text engine on a rolling
    window and pushes the transcript back to the device.

    - PCM samples are [int16] values read little-endian from a byte string;
      the converted samples are IEEE binary32 numbers, modelled with the
      Standard Library's [SpecFloat] at precision 24 and maximal exponent 128.
    - Clock readings ([time.time()]) are binary64 numbers: Rocq's primitive
      floats.
    - The body of [main] is a computation in a small monad that threads the
      local variables, logs every call made to the outside world (device
      link, engine, terminal) and may raise an exception. *)

From Stdlib Require Import ZArith List Bool Ascii String Lia.
From Stdlib.Strings Require Import Byte.
From Stdlib Require Import SpecFloat PrimFloat.
Import ListNotations.

Local Open Scope Z_scope.

(** ** Configuration (the constants at the top of the source) *)

Definition MODEL_SIZE : string := "base".
Definition STEP_SEC : float := 1.0%float.
Definition RATE_IN : Z := 8000.
Definition RATE_OUT : Z := 16000.
Definition CONTEXT_SEC : Z := 25.

(** ** binary32 samples *)

Module F32.

Definition prec : Z := 24.
Definition emax : Z := 128.

Definition t : Type := spec_float.

(** [astype(np.float32)] on an integer: rounding of [n * 2^0]. *)
Definition of_int (n : Z) : t := binary_normalize prec emax n 0 false.

Definition div (x y : t) : t := SFdiv prec emax x y.
Definition leb (x y : t) : bool := SFleb x y.
Definition eqb (x y : t) : bool := SFeqb x y.

(** The literals [32768.0], [1.0] and [-1.0]. *)
Definition c32768 : t := of_int 32768.
Definition one : t := of_int 1.
Definition minus_one : t := of_int (-1).



End F32.

(** ** [pcm16_to_f32] *)

(** One [int16] read from two bytes, least significant byte first
    ([np.frombuffer(..., dtype=np.int16)] on a little-endian host). *)
Definition int16_of_bytes (lo hi : byte) : Z :=
  let u := Z.of_N (Byte.to_N lo) + 256 * Z.of_N (Byte.to_N hi) in
  if u <? 32768 then u else u - 65536.

(** [np.frombuffer(pcm, dtype=np.int16)]: the byte string is cut into items
    of two bytes; a length that is not a multiple of the item size raises
    [ValueError] ([None] here). *)
Fixpoint frombuffer_int16 (pcm : list byte) : option (list Z) :=
  match pcm with
  | [] => Some []
  | [_] => None
  | lo :: hi :: rest =>
      match frombuffer_int16 rest with
      | Some l => Some (int16_of_bytes lo hi :: l)
      | None => None
      end
  end.

Definition sample_of_int16 (n : Z) : F32.t := F32.div (F32.of_int n) F32.c32768.

Definition pcm16_to_f32 (pcm : list byte) : option (list F32.t) :=
  match frombuffer_int16 pcm with
  | Some l => Some (map sample_of_int16 l)
  | None => None
  end.

(** ** The rolling window (lines 202 and 223-225 of [main]) *)

Definition max_samples : Z := CONTEXT_SEC * RATE_OUT.

Section Window.

Context {A : Type}.

(** Python's [a[-m:]]: the start index [-m] is taken from the end when it
    is negative and clipped to [0 .. len(a)]. *)
Definition slice_last (m : Z) (a : list A) : list A :=
  let len := Z.of_nat (List.length a) in
  let start := - m in
  let start := if start <? 0 then Z.max (start + len) 0 else Z.min start len in
  skipn (Z.to_nat start) a.

(** [buf = np.concatenate([buf, up]); if buf.size > max_samples: buf =
    buf[-max_samples:]]. *)
Definition append_trim (buf up : list A) : list A :=
  let buf := buf ++ up in
  if Z.of_nat (List.length buf) >? max_samples then slice_last max_samples buf
  else buf.

(** The window after a sequence of appends, starting from [buf]. *)
Definition append_all (buf : list A) (blocks : list (list A)) : list A :=
  fold_left append_trim blocks buf.

(** The last [n] elements of a list (all of it when it is shorter). *)
Definition most_recent (n : Z) (a : list A) : list A :=
  skipn (Z.to_nat (Z.of_nat (List.length a) - n)) a.

End Window.

(** ** Text (Python [str], code points below 256) *)

(** [str.isspace] on one character. *)
Definition isspace (c : ascii) : bool :=
  let n := N_of_ascii c in
  ((9 <=? n) && (n <=? 13) || (28 <=? n) && (n <=? 32)
   || (n =? 133) || (n =? 160))%N.

Fixpoint lstrip (s : string) : string :=
  match s with
  | EmptyString => EmptyString
  | String c s' => if isspace c then lstrip s' else s
  end.

Fixpoint rev_string (acc s : string) : string :=
  match s with
  | EmptyString => acc
  | String c s' => rev_string (String c acc) s'
  end.

Definition rstrip (s : string) : string :=
  rev_string EmptyString (lstrip (rev_string EmptyString s)).

(** [s.strip()] *)
Definition strip (s : string) : string := rstrip (lstrip s).

(** ["".join(s.text for s in segments)] *)
Definition join (segments : list string) : string :=
  fold_right String.append EmptyString segments.

(** Truth value of a string: it is not empty. *)
Definition truthy (s : string) : bool :=
  match s with EmptyString => false | String _ _ => true end.

(** The condition [text and text != last_terminal] of line 238. *)
Definition should_emit (new_text last_text : string) : bool :=
  truthy new_text && negb (String.eqb new_text last_text).

(** ** The outside world

    Every call that [main] makes to a collaborator (the device link
    [frame], the audio receiver, the engine, the terminal) is logged, in
    order.  The payload of a message is kept symbolic: [TxCode(value).pack()]
    or [text.encode()]. *)

Inductive payload : Type :=
| Packed (value : Z)
| Encoded (text : string).

Inductive call : Type :=
| Print (line : string)
| PrintExc
| Input (prompt : string)
| LoadModel (size device compute_type : string)
| Connect
| AttachPrintResponseHandler
| UploadFileFromString (name : string)
| UploadStdluaLibs (lib_names : list string)
| SendLua (code : string)
| Sleep (seconds : Z)
| RxAudioAttach
| SendMessage (msg_code : Z) (body : payload)
| CreateStopTask
| CancelStopTask
| Transcribe (audio : list F32.t)
| RxAudioDetach
| DetachPrintResponseHandler
| StopFrameApp
| Disconnect.

Inductive exn : Type :=
| ValueError (msg : string)
| EngineError (msg : string)
| TimeoutError
| KeyboardInterrupt.

(** [str(e)] *)
Definition exn_message (e : exn) : string :=
  match e with
  | ValueError msg | EngineError msg => msg
  | TimeoutError | KeyboardInterrupt => EmptyString
  end.

(** What the device link delivers in one iteration of the recording loop:
    [wait_for] times out, or [audio_queue.get()] returns a chunk (with the
    two readings of [time.time()] of lines 214 and 215), or it returns
    [None]. *)
Inductive event : Type :=
| Timeout
| Packet (pkt : list byte) (now now' : float)
| EndOfStream.

(** One recording: the clock reading of line 201, the iterations of the
    recording loop that run, and whether the user has pressed Enter by the
    time the loop is left through [break] or through an exception (then the
    task [wait_for_stop] has finished during the wait of that last
    iteration).  When the iterations are used up, the loop ends at its test
    of [stop_event], which that task has set. *)
Record phase : Type := {
  start_time : float;
  events : list event;
  enter_pressed : bool
}.

(** The local variables of [main]. *)
Record locals : Type := {
  rx_audio : bool;            (* [None] or attached *)
  buf_pcm8k : list byte;
  buf_pcm16k : list F32.t;
  last_terminal : string;
  last_t : float
}.

Definition set_rx_audio (v : bool) (s : locals) : locals :=
  {| rx_audio := v; buf_pcm8k := buf_pcm8k s; buf_pcm16k := buf_pcm16k s;
     last_terminal := last_terminal s; last_t := last_t s |}.
Definition set_buf_pcm8k (v : list byte) (s : locals) : locals :=
  {| rx_audio := rx_audio s; buf_pcm8k := v; buf_pcm16k := buf_pcm16k s;
     last_terminal := last_terminal s; last_t := last_t s |}.
Definition set_buf_pcm16k (v : list F32.t) (s : locals) : locals :=
  {| rx_audio := rx_audio s; buf_pcm8k := buf_pcm8k s; buf_pcm16k := v;
     last_terminal := last_terminal s; last_t := last_t s |}.
Definition set_last_terminal (v : string) (s : locals) : locals :=
  {| rx_audio := rx_audio s; buf_pcm8k := buf_pcm8k s;
     buf_pcm16k := buf_pcm16k s; last_terminal := v; last_t := last_t s |}.
Definition set_last_t (v : float) (s : locals) : locals :=
  {| rx_audio := rx_audio s; buf_pcm8k := buf_pcm8k s;
     buf_pcm16k := buf_pcm16k s; last_terminal := last_terminal s;
     last_t := v |}.

(** ** The monad: locals, log of calls, exceptions *)

Inductive outcome (A : Type) : Type :=
| Ret (a : A)
| Raise (e : exn).
Arguments Ret {A} a.
Arguments Raise {A} e.

(** A computation starts from the locals and yields its outcome, the
    locals it leaves (also when it raises: buffers are mutated in place) and
    the calls it made. *)
Definition M (A : Type) : Type := locals -> outcome A * locals * list call.

Definition ret {A} (a : A) : M A := fun s => (Ret a, s, []).

Definition bind {A B} (c : M A) (k : A -> M B) : M B :=
  fun s =>
    let '(r, s1, l1) := c s in
    match r with
    | Ret a => let '(r2, s2, l2) := k a s1 in (r2, s2, l1 ++ l2)
    | Raise e => (Raise e, s1, l1)
    end.

Definition raise {A} (e : exn) : M A := fun s => (Raise e, s, []).
Definition get : M locals := fun s => (Ret s, s, []).
Definition modify (f : locals -> locals) : M unit := fun s => (Ret tt, f s, []).
Definition perform (c : call) : M unit := fun s => (Ret tt, s, [c]).

Declare Scope prog_scope.
Delimit Scope prog_scope with prog.
Notation "x <- c ;; k" := (bind c (fun x => k))
  (at level 100, c at next level, right associativity) : prog_scope.
Notation "c ;; k" := (bind c (fun _ => k))
  (at level 100, right associativity) : prog_scope.

(** [try: body finally: fin], where [fin] may look at how [body] ended. *)
Definition try_finally {A} (body : M A) (fin : outcome A -> M unit) : M A :=
  fun s =>
    let '(r, s1, l1) := body s in
    let '(r2, s2, l2) := fin r s1 in
    (match r2 with Ret _ => r | Raise e => Raise e end, s2, l1 ++ l2).

(** [try: body except ...: handler]; [handler e = None] when no clause
    matches [e]. *)
Definition try_except {A} (body : M A) (handler : exn -> option (M A)) : M A :=
  fun s =>
    let '(r, s1, l1) := body s in
    match r with
    | Ret a => (Ret a, s1, l1)
    | Raise e =>
        match handler e with
        | Some h => let '(r2, s2, l2) := h s1 in (r2, s2, l1 ++ l2)
        | None => (Raise e, s1, l1)
        end
    end.

Definition print (line : string) : M unit := perform (Print line).
Definition send_message (msg_code : Z) (body : payload) : M unit :=
  perform (SendMessage msg_code body).

(** ** [main] *)

(** The condition [time.time() - last_t >= STEP_SEC] of line 214, on the
    reading [now] of the clock. *)
Definition tick (now : float) (s : locals) : bool :=
  PrimFloat.leb STEP_SEC (PrimFloat.sub now (last_t s)).


Inductive flow : Type := Next | Break.

(** How the recording loop ended: [stop_event] was set, or [break]. *)
Inductive loop_exit : Type := StopRequested | StreamEnded.

Section Program.

Local Open Scope prog_scope.
Local Open Scope string_scope.

(** [resampy.resample(x, sr_orig, sr_new)] *)
Variable resample : list F32.t -> Z -> Z -> list F32.t.

(** [model.transcribe(audio, language="en", beam_size=5, vad_filter=True,
    word_timestamps=False)] followed by the iteration over its segments:
    the texts of the segments, or the message of the error it raises. *)
Variable transcribe : list F32.t -> string + list string.

Definition model_transcribe (audio : list F32.t) : M (list string) :=
  perform (Transcribe audio);;
  match transcribe audio with
  | inr segments => ret segments
  | inl msg => raise (EngineError msg)
  end.

(** [pcm16_to_f32(bytes(buf_pcm8k))], which raises when [np.frombuffer]
    does. *)
Definition convert (pcm : list byte) : M (list F32.t) :=
  match pcm16_to_f32 pcm with
  | Some a => ret a
  | None => raise (ValueError "buffer size must be a multiple of element size")
  end.

(** Lines 237-244: the change gate. *)
Definition emit_if_changed (text : string) : M unit :=
  s <- get;;
  if should_emit text (last_terminal s) then
    print ("Transcription: " ++ text);;
    modify (set_last_terminal text);;
    send_message 0x31 (Encoded text)
  else ret tt.

(** Lines 214-244: the work done when a chunk has arrived. *)
Definition on_packet (now now' : float) : M flow :=
  s <- get;;
  if tick now s then
    modify (set_last_t now');;
    s <- get;;
    pcm_f32 <- convert (buf_pcm8k s);;
    modify (set_buf_pcm8k []);;
    if (Z.of_nat (List.length pcm_f32) =? 0)%Z then ret Next
    else
      let up := resample pcm_f32 RATE_IN RATE_OUT in
      modify (fun s => set_buf_pcm16k (append_trim (buf_pcm16k s) up) s);;
      s <- get;;
      segments <- model_transcribe (buf_pcm16k s);;
      let text := strip (join segments) in
      emit_if_changed text;;
      ret Next
  else ret Next.

(** Lines 206-248: one iteration of the recording loop. *)
Definition loop_body (ev : event) : M flow :=
  try_except
    (match ev with
     | Timeout => raise TimeoutError
     | EndOfStream => ret Break
     | Packet pkt now now' =>
         modify (fun s => set_buf_pcm8k (buf_pcm8k s ++ pkt) s);;
         on_packet now now'
     end)
    (fun e => match e with TimeoutError => Some (ret Next) | _ => None end).

(** Lines 205-248: [while not stop_event.is_set(): ...]. *)
Fixpoint record_loop (evs : list event) : M loop_exit :=
  match evs with
  | [] => ret StopRequested
  | ev :: rest =>
      f <- loop_body ev;;
      match f with
      | Break => ret StreamEnded
      | Next => record_loop rest
      end
  end.

(** [stop_task.done()] at line 252.  The task [wait_for_stop] sets
    [stop_event] in its last step, so it is done whenever the loop has ended
    at its test of [stop_event]; when the loop is left through [break] or
    through an exception, it is done if the user has pressed Enter by
    then. *)
Definition stop_task_done (pressed : bool) (r : outcome loop_exit) : bool :=
  match r with
  | Ret StopRequested => true
  | _ => pressed
  end.

(** Lines 250-257: the stop task is cancelled, and awaited, if it is still
    running. *)
Definition cancel_stop_task (pressed : bool) (r : outcome loop_exit) : M unit :=
  if negb (stop_task_done pressed r) then perform CancelStopTask else ret tt.

(** Lines 259-284: what follows the recording loop. *)
Definition finalizing : M unit :=
  print "Stopping recording...";;
  send_message 0x30 (Packed 0);;
  s <- get;;
  (if (Z.of_nat (List.length (buf_pcm16k s)) >? 0)%Z then
     print "Processing final transcription...";;
     send_message 0x31 (Encoded "Processing final transcription...");;
     segments <- model_transcribe (buf_pcm16k s);;
     let final_text := strip (join segments) in
     if truthy final_text then
       print ("Final transcription: " ++ final_text);;
       send_message 0x31 (Encoded final_text)
     else send_message 0x31 (Encoded "No speech detected.")
   else ret tt);;
  print "Ready for next recording.".

(** Lines 179-284: one turn of the main loop. *)
Definition recording (ph : phase) : M unit :=
  perform (Input "Press Enter to start recording: ");;
  modify (set_buf_pcm8k []);;
  modify (set_buf_pcm16k []);;
  modify (set_last_terminal "");;
  print "Starting recording...";;
  send_message 0x30 (Packed 1);;
  send_message 0x31 (Encoded "Listening...");;
  print "Recording... (Press Enter to stop)";;
  perform CreateStopTask;;
  modify (set_last_t (start_time ph));;
  try_finally (record_loop (events ph)) (cancel_stop_task (enter_pressed ph));;
  finalizing.

(** Lines 178-284: [while True]; after the last recording the user
    interrupts the prompt. *)
Fixpoint session (phases : list phase) : M unit :=
  match phases with
  | [] =>
      perform (Input "Press Enter to start recording: ");;
      raise KeyboardInterrupt
  | ph :: rest => recording ph;; session rest
  end.

(** Lines 28-175. *)
Definition startup : M unit :=
  print "Loading faster-whisper model...";;
  perform (LoadModel MODEL_SIZE "cpu" "int8");;
  print "Whisper model loaded";;
  print "Connecting to Frame...";;
  perform Connect;;
  print "Connected successfully!";;
  perform AttachPrintResponseHandler;;
  print "Uploading custom Lua app...";;
  perform (UploadFileFromString "custom_transcription_app.lua");;
  print "Uploading libraries...";;
  perform (UploadStdluaLibs ["data"; "code"; "audio"]);;
  print "Starting custom Frame app...";;
  perform (SendLua "require('custom_transcription_app')");;
  perform (Sleep 2);;
  modify (set_rx_audio true);;
  perform RxAudioAttach;;
  modify (set_buf_pcm8k []);;
  modify (set_buf_pcm16k []);;
  modify (set_last_terminal "").

(** Lines 286-291. *)
Definition handlers (e : exn) : option (M unit) :=
  match e with
  | KeyboardInterrupt => Some (print "Stopped by user")
  | _ => Some (print ("An error occurred: " ++ exn_message e);;
               perform PrintExc)
  end.

(** Lines 292-300. *)
Definition cleanup : M unit :=
  s <- get;;
  (if rx_audio s then perform RxAudioDetach else ret tt);;
  perform DetachPrintResponseHandler;;
  perform StopFrameApp;;
  perform Disconnect;;
  print "Disconnected from Frame".

Definition main (phases : list phase) : M unit :=
  try_finally
    (try_except (startup;; session phases) handlers)
    (fun _ => cleanup).

End Program.

(** The locals before [main] assigns any of them. *)
Definition initial : locals :=
  {| rx_audio := false; buf_pcm8k := []; buf_pcm16k := [];
     last_terminal := EmptyString; last_t := 0%float |}.

(** The calls a computation makes from given locals, and the messages among
    them. *)
Definition calls {A} (c : M A) (s : locals) : list call := snd (c s).
Definition result {A} (c : M A) (s : locals) : outcome A := fst (fst (c s)).
Definition after {A} (c : M A) (s : locals) : locals := snd (fst (c s)).

Definition is_message (c : call) : bool :=
  match c with SendMessage _ _ => true | _ => false end.
Definition is_transcribe (c : call) : bool :=
  match c with Transcribe _ => true | _ => false end.

Definition messages (l : list call) : list call := filter is_message l.
Definition decodes (l : list call) : list call := filter is_transcribe l.

(** The messages of the finalizing step. *)
Definition stop_signal : call := SendMessage 0x30 (Packed 0).
Definition processing_status : call :=
  SendMessage 0x31 (Encoded "Processing final transcription...").
Definition no_speech : call := SendMessage 0x31 (Encoded "No speech detected.").


(** A computation is [fatal] on decode errors when a decode that fails is
    never followed by anything but the calls [P] allows, and makes the
    computation raise the engine's error. *)
Definition fatal (transcribe : list F32.t -> string + list string)
    {A} (P : list call -> Prop) (c : M A) : Prop :=
  forall s l1 x l2 msg,
    calls c s = l1 ++ Transcribe x :: l2 ->
    transcribe x = inl msg ->
    result c s = Raise (EngineError msg) /\ P l2.

(** A computation that leaves [rx_audio] as it found it. *)
Definition keeps_rx {A} (c : M A) : Prop :=
  forall s, rx_audio (after c s) = rx_audio s.


(** ** Test doubles and checkers used by the examples below *)

Module Stub.

(** A resampler that repeats every sample (8 kHz to 16 kHz doubles the
    number of samples). *)
Definition resample (x : list F32.t) (sr_orig sr_new : Z) : list F32.t :=
  flat_map (fun v => [v; v]) x.




(** An engine that returns canned segments. *)
Definition say (segments : list string) (audio : list F32.t)
  : string + list string := inr segments.

(** An engine that always fails. *)
Definition fail (msg : string) (audio : list F32.t)
  : string + list string := inl msg.

End Stub.

(** [p] holds of [lo], [lo + 1], ..., for [fuel] consecutive integers. *)
Fixpoint all_from (fuel : nat) (lo : Z) (p : Z -> bool) : bool :=
  match fuel with
  | O => true
  | S fuel' => p lo && all_from fuel' (lo + 1) p
  end.


(** ** Measures and checkers used by the second part of the properties *)

(** The value of a binary32 number counted in units of [2^-38], when it is
    a whole number of them. *)
Definition f32_units (x : F32.t) : option Z :=
  match x with
  | S754_zero _ => Some 0
  | S754_finite s m e =>
      if 0 <=? e + 38
      then Some ((if s then -1 else 1) * Z.pos m * 2 ^ (e + 38))
      else None
  | _ => None
  end.

(** The sample made from [n] is worth exactly [n / 2^15] (that is
    [n * 2^23] units) and is below [1.0]. *)
Definition sample_exact (n : Z) : bool :=
  match f32_units (sample_of_int16 n) with
  | Some v => v =? n * 2 ^ 23
  | None => false
  end
  && SFltb (sample_of_int16 n) F32.one.

(** The texts sent with message code [0x31], in order. *)
Definition text_of (c : call) : list string :=
  match c with
  | SendMessage code (Encoded t) => if code =? 0x31 then [t] else []
  | _ => []
  end.
Definition texts (l : list call) : list string := flat_map text_of l.

(** The values of the control signals (message code [0x30]), in order. *)
Definition control_of (c : call) : list Z :=
  match c with
  | SendMessage code (Packed v) => if code =? 0x30 then [v] else []
  | _ => []
  end.
Definition controls (l : list call) : list Z := flat_map control_of l.

(** No two neighbours of the list are equal. *)
Fixpoint no_repeat (l : list string) : Prop :=
  match l with
  | a :: (b :: _) as tl => a <> b /\ no_repeat tl
  | _ => True
  end.

(** Every call a computation makes satisfies [P], from whatever locals. *)
Definition every {A} (P : call -> Prop) (c : M A) : Prop :=
  forall s, Forall P (calls c s).

(** A text message carries a text that is not empty. *)
Definition text_not_empty (c : call) : Prop :=
  match c with
  | SendMessage _ (Encoded t) => t <> EmptyString
  | _ => True
  end.

(** The engine is called on a window that is not empty. *)
Definition decodes_nonempty (c : call) : Prop :=
  match c with
  | Transcribe w => w <> []
  | _ => True
  end.

(** A call that is not a control signal. *)
Definition not_control (c : call) : Prop := control_of c = [].

(** [n] recordings switched on and off, and possibly one more switched on
    and never off. *)
Definition on_off (n : nat) (open : bool) : list Z :=
  List.concat (repeat [1; 0] n) ++ (if open then [1] else []).

Definition is_timeout (ev : event) : bool :=
  match ev with Timeout => true | _ => false end.

(** The locals from which a recording starts (lines 183-185 and 201). *)
Definition fresh (t : float) (s : locals) : locals :=
  set_last_t t
    (set_last_terminal EmptyString (set_buf_pcm16k [] (set_buf_pcm8k [] s))).

(** The ways in which one iteration of the recording loop can end, from
    locals [s]: without any call and with the window and the last text as
    they were; or after a decode of the window to which a block that is not
    empty has been appended, a decode that fails, or whose text is held
    back, or whose text is sent. *)
Inductive body_outcome
    (resample : list F32.t -> Z -> Z -> list F32.t)
    (transcribe : list F32.t -> string + list string)
    (s : locals) : outcome flow * locals * list call -> Prop :=
| BO_quiet r s' :
    buf_pcm16k s' = buf_pcm16k s ->
    last_terminal s' = last_terminal s ->
    (forall f, r = Ret f -> buf_pcm8k s' = [] \/ exists pkt, buf_pcm8k s' = buf_pcm8k s ++ pkt) ->
    body_outcome resample transcribe s (r, s', [])
| BO_failed pcm_f32 msg s' :
    pcm_f32 <> [] ->
    buf_pcm16k s'
    = append_trim (buf_pcm16k s) (resample pcm_f32 RATE_IN RATE_OUT) ->
    last_terminal s' = last_terminal s ->
    transcribe (buf_pcm16k s') = inl msg ->
    body_outcome resample transcribe s
      (Raise (EngineError msg), s', [Transcribe (buf_pcm16k s')])
| BO_held_back pcm_f32 segments s' :
    pcm_f32 <> [] ->
    buf_pcm16k s'
    = append_trim (buf_pcm16k s) (resample pcm_f32 RATE_IN RATE_OUT) ->
    last_terminal s' = last_terminal s ->
    transcribe (buf_pcm16k s') = inr segments ->
    should_emit (strip (join segments)) (last_terminal s) = false ->
    body_outcome resample transcribe s
      (Ret Next, s', [Transcribe (buf_pcm16k s')])
| BO_emitted pcm_f32 segments s' :
    pcm_f32 <> [] ->
    buf_pcm16k s'
    = append_trim (buf_pcm16k s) (resample pcm_f32 RATE_IN RATE_OUT) ->
    last_terminal s' = strip (join segments) ->
    transcribe (buf_pcm16k s') = inr segments ->
    should_emit (strip (join segments)) (last_terminal s) = true ->
    body_outcome resample transcribe s
      (Ret Next, s',
       [Transcribe (buf_pcm16k s');
        Print ("Transcription: " ++ strip (join segments));
        SendMessage 0x31 (Encoded (strip (join segments)))]).

(** The chunk of an event holds whole 16-bit samples. *)
Definition whole_samples (ev : event) : Prop :=
  match ev with
  | Packet pkt _ _ => Nat.even (List.length pkt) = true
  | _ => True
  end.

(** The calls with which [main] releases the device (lines 294-300). *)
Definition release_calls : list call :=
  [RxAudioDetach; DetachPrintResponseHandler; StopFrameApp; Disconnect;
   Print "Disconnected from Frame"].

(** ** The device app: how a transcript is drawn

    The Lua program that [main] uploads (lines 41-151) redraws the display
    when a text message arrives (lines 94-125).  Lua strings are strings of
    bytes; positions count from 1. *)

Inductive display_call : Type :=
| DisplayText (text : string) (x y : Z)   (* [frame.display.text(text, x, y)] *)
| DisplayShow.                            (* [frame.display.show()] *)

(** Lua's [string.sub(s, i, j)]: negative positions count from the end,
    the start is raised to 1 and the end lowered to the length. *)
Definition posrelat (pos len : Z) : Z :=
  if pos >=? 0 then pos else if - pos >? len then 0 else len + pos + 1.

Definition string_sub (s : string) (i j : Z) : string :=
  let l := Z.of_nat (String.length s) in
  let start := posrelat i l in
  let stop := posrelat j l in
  let start := if start <? 1 then 1 else start in
  let stop := if stop >? l then l else stop in
  if start <=? stop
  then substring (Z.to_nat (start - 1)) (Z.to_nat (stop - start + 1)) s
  else EmptyString.

Definition line_length : Z := 40.

(** Lines 113-121: [while start <= #text do ... end], with the [break] on
    [y > 250].  Every turn moves [start] forward by [line_length], so
    [#text] turns and one more are enough. *)
Fixpoint wrap_loop (fuel : nat) (text : string) (y start : Z)
  : list display_call :=
  match fuel with
  | O => []
  | S fuel' =>
      if start <=? Z.of_nat (String.length text) then
        let display_text := string_sub text start (start + line_length - 1) in
        let y' := y + 40 in
        let start' := start + line_length in
        DisplayText display_text 10 y
        :: (if y' >? 250 then [] else wrap_loop fuel' text y' start')
      else []
  end.



(** The texts drawn and the places where they are drawn. *)
Definition drawn_text (c : display_call) : list string :=
  match c with DisplayText t _ _ => [t] | DisplayShow => [] end.

(** * Properties *)

(** ** Rolling window *)

Lemma max_samples_eq : max_samples = 400000.
Proof. reflexivity. Qed.

Section WindowFacts.

Context {A : Type}.
Implicit Types a b buf up : list A.

Lemma slice_last_most_recent m a :
  0 < m -> slice_last m a = most_recent m a.
Proof.
  intros Hm. unfold slice_last, most_recent.
  destruct (Z.ltb_spec (- m) 0) as [_ | H]; [ | lia ].
  f_equal. lia.
Qed.

Lemma most_recent_short n a :
  Z.of_nat (List.length a) <= n -> most_recent n a = a.
Proof.
  intros H. unfold most_recent.
  replace (Z.to_nat (Z.of_nat (List.length a) - n)) with O by lia.
  reflexivity.
Qed.

Lemma most_recent_length n a :
  0 <= n ->
  Z.of_nat (List.length (most_recent n a)) = Z.min (Z.of_nat (List.length a)) n.
Proof.
  intros Hn. unfold most_recent. rewrite length_skipn. lia.
Qed.

Lemma most_recent_app n a b :
  0 <= n -> most_recent n (most_recent n a ++ b) = most_recent n (a ++ b).
Proof.
  intros Hn. unfold most_recent.
  rewrite !skipn_app, !length_app, !length_skipn, skipn_skipn.
  f_equal; f_equal; lia.
Qed.

Lemma append_trim_most_recent buf up :
  append_trim buf up = most_recent max_samples (buf ++ up).
Proof.
  unfold append_trim.
  destruct (Z.gtb_spec (Z.of_nat (List.length (buf ++ up))) max_samples) as [H | H].
  - apply slice_last_most_recent. reflexivity.
  - symmetry. apply most_recent_short. exact H.
Qed.

Lemma append_trim_length buf up :
  Z.of_nat (List.length (append_trim buf up))
  = Z.min (Z.of_nat (List.length buf) + Z.of_nat (List.length up)) max_samples.
Proof.
  rewrite append_trim_most_recent, most_recent_length by (rewrite max_samples_eq; lia).
  rewrite length_app. lia.
Qed.

(** An append to a window that is at capacity drops as many samples as
    it adds. *)
Lemma append_trim_at_capacity buf up :
  Z.of_nat (List.length buf) = max_samples ->
  append_trim buf up = skipn (List.length up) (buf ++ up).
Proof.
  intros H. rewrite append_trim_most_recent. unfold most_recent.
  f_equal. rewrite length_app. lia.
Qed.

Lemma append_all_most_recent blocks : forall buf,
  Z.of_nat (List.length buf) <= max_samples ->
  append_all buf blocks = most_recent max_samples (buf ++ List.concat blocks).
Proof.
  induction blocks as [ | b blocks IH ]; intros buf Hbuf; cbn [append_all fold_left List.concat].
  - rewrite app_nil_r. symmetry. apply most_recent_short. exact Hbuf.
  - change (fold_left append_trim blocks (append_trim buf b))
      with (append_all (append_trim buf b) blocks).
    rewrite IH by (rewrite append_trim_length; lia).
    rewrite append_trim_most_recent, most_recent_app, app_assoc
      by (rewrite max_samples_eq; lia).
    reflexivity.
Qed.



End WindowFacts.

(** C1 (as amended). After every append-and-trim step the window holds at
    most [CONTEXT_SEC * RATE_OUT] samples; the step keeps the samples in
    order and drops from the front exactly the excess over the capacity
    (as many samples as were appended when the window was already at
    capacity, fewer when it was not); and after any sequence of appends to an
    empty window the window is the most recent capacity-worth of all the
    samples appended. *)
Theorem window_append_fifo :
  forall (A : Type) (buf up : list A) (blocks : list (list A)),
    let n := Z.of_nat (List.length buf) + Z.of_nat (List.length up) in
    Z.of_nat (List.length (append_trim buf up)) <= CONTEXT_SEC * RATE_OUT
    /\ Z.of_nat (List.length (append_trim buf up)) = Z.min n (CONTEXT_SEC * RATE_OUT)
    /\ append_trim buf up
       = skipn (Z.to_nat (n - CONTEXT_SEC * RATE_OUT)) (buf ++ up)
    /\ append_all [] blocks
       = most_recent (CONTEXT_SEC * RATE_OUT) (List.concat blocks)
    /\ Z.of_nat (List.length (append_all [] blocks)) <= CONTEXT_SEC * RATE_OUT.
Proof.
  intros A buf up blocks n. fold max_samples.
  assert (Hall : append_all [] blocks
                 = most_recent max_samples (List.concat blocks)).
  { rewrite append_all_most_recent by (rewrite max_samples_eq; cbn; lia).
    reflexivity. }
  repeat split.
  - rewrite append_trim_length. lia.
  - apply append_trim_length.
  - rewrite append_trim_most_recent. unfold most_recent, n.
    rewrite length_app. f_equal. lia.
  - exact Hall.
  - rewrite Hall, most_recent_length by (rewrite max_samples_eq; lia). lia.
Qed.

(** C1 (as stated) fails: a window two samples short of the capacity that
    receives four samples exceeds the capacity, but loses two samples, not
    four. *)
Lemma window_append_not_k_oldest :
  let buf := repeat F32.one (Z.to_nat (max_samples - 2)) in
  let up := repeat F32.minus_one 4 in
  Z.of_nat (List.length buf) + Z.of_nat (List.length up) > max_samples
  /\ append_trim buf up <> skipn (List.length up) (buf ++ up).
Proof.
  intros buf up.
  assert (Hlen : Z.of_nat (List.length buf) = max_samples - 2).
  { unfold buf. rewrite repeat_length, max_samples_eq. lia. }
  split.
  - rewrite Hlen, max_samples_eq. cbn. lia.
  - intros Heq. apply (f_equal (fun l => Z.of_nat (List.length l))) in Heq.
    rewrite append_trim_length, length_skipn, length_app in Heq.
    rewrite max_samples_eq in *. cbn [List.length up repeat] in Heq. lia.
Qed.

(** ** Conversion of PCM samples *)

Lemma all_from_spec (p : Z -> bool) : forall fuel lo,
  all_from fuel lo p = true ->
  forall n, lo <= n < lo + Z.of_nat fuel -> p n = true.
Proof.
  induction fuel as [ | fuel IH ]; intros lo Hall n Hn; [ lia | ].
  cbn [all_from] in Hall. apply andb_prop in Hall as [Hlo Hrest].
  destruct (Z.eq_dec n lo) as [-> | Hne]; [ exact Hlo | ].
  apply (IH (lo + 1) Hrest). lia.
Qed.



Lemma int16_of_bytes_range lo hi :
  -32768 <= int16_of_bytes lo hi <= 32767.
Proof.
  unfold int16_of_bytes.
  pose proof (Byte.to_N_bounded lo). pose proof (Byte.to_N_bounded hi).
  destruct (Z.ltb_spec (Z.of_N (Byte.to_N lo) + 256 * Z.of_N (Byte.to_N hi)) 32768); lia.
Qed.

(** Induction on byte strings two bytes at a time. *)
Lemma pairs_ind (P : list byte -> Prop) :
  P [] -> (forall b, P [b]) ->
  (forall lo hi rest, P rest -> P (lo :: hi :: rest)) ->
  forall pcm, P pcm.
Proof.
  intros H0 H1 H2.
  assert (H : forall pcm, P pcm /\ forall b, P (b :: pcm)).
  { induction pcm as [ | b pcm [IH IH'] ]; split; auto. }
  intros pcm. apply H.
Qed.

Lemma frombuffer_int16_range pcm : forall l,
  frombuffer_int16 pcm = Some l ->
  Forall (fun n => -32768 <= n <= 32767) l.
Proof.
  induction pcm as [ | b | lo hi rest IH ] using pairs_ind; intros l Hl;
    cbn [frombuffer_int16] in Hl.
  - injection Hl as <-. constructor.
  - discriminate.
  - destruct (frombuffer_int16 rest) as [ l' | ]; [ | discriminate ].
    injection Hl as <-. constructor; [ apply int16_of_bytes_range | auto ].
Qed.

(** [np.frombuffer] accepts exactly the byte strings of even length. *)
Lemma frombuffer_int16_even pcm :
  Nat.even (List.length pcm) = true ->
  exists l, frombuffer_int16 pcm = Some l
            /\ List.length l = Nat.div2 (List.length pcm).
Proof.
  induction pcm as [ | b | lo hi rest IH ] using pairs_ind; intros Hev.
  - exists []. split; reflexivity.
  - discriminate.
  - destruct (IH Hev) as (l & Hl & Hlen).
    exists (int16_of_bytes lo hi :: l). cbn [frombuffer_int16].
    rewrite Hl. split; [ reflexivity | cbn; now rewrite Hlen ].
Qed.

Lemma frombuffer_int16_odd pcm :
  Nat.even (List.length pcm) = false -> frombuffer_int16 pcm = None.
Proof.
  induction pcm as [ | b | lo hi rest IH ] using pairs_ind; intros Hev.
  - discriminate.
  - reflexivity.
  - cbn [frombuffer_int16]. now rewrite (IH Hev).
Qed.

Lemma pcm16_to_f32_total pcm :
  Nat.even (List.length pcm) = true -> exists a, pcm16_to_f32 pcm = Some a.
Proof.
  intros Hev. destruct (frombuffer_int16_even pcm Hev) as (l & Hl & _).
  exists (map sample_of_int16 l). unfold pcm16_to_f32. now rewrite Hl.
Qed.

(** ** Change gate *)

Lemma truthy_spec s : truthy s = true <-> s <> EmptyString.
Proof. destruct s; cbn; split; congruence. Qed.

(** C2. The gate emits exactly when the new text is not empty and differs
    from the last emitted text.  When it emits, it prints the text and sends
    it downstream, and the last emitted text becomes the new text; when it
    does not, it makes no call and the last emitted text stays.  It never
    raises and touches no other local. *)
Theorem change_gate_emits_iff :
  forall (new_text last_text : string) (s : locals),
    let emits := should_emit new_text (last_terminal s) in
    let s' := after (emit_if_changed new_text) s in
    (should_emit new_text last_text = true
     <-> new_text <> EmptyString /\ new_text <> last_text)
    /\ calls (emit_if_changed new_text) s
       = (if emits
          then [Print ("Transcription: " ++ new_text);
                SendMessage 0x31 (Encoded new_text)]
          else [])
    /\ last_terminal s' = (if emits then new_text else last_terminal s)
    /\ result (emit_if_changed new_text) s = Ret tt
    /\ (rx_audio s', buf_pcm8k s', buf_pcm16k s', last_t s')
       = (rx_audio s, buf_pcm8k s, buf_pcm16k s, last_t s)
    /\ should_emit "" "x" = false
    /\ should_emit "x" "x" = false
    /\ should_emit "y" "x" = true
    /\ should_emit "x" "" = true.
Proof.
  intros new_text last_text s emits s'. split.
  - unfold should_emit. rewrite andb_true_iff, negb_true_iff, truthy_spec.
    rewrite String.eqb_neq. reflexivity.
  - subst emits s'. unfold calls, after, result, emit_if_changed, bind, get.
    cbn [fst snd].
    destruct (should_emit new_text (last_terminal s)); repeat split; reflexivity.
Qed.

(** ** Finalizing *)

(** The whole run of [finalizing], case by case. *)
Lemma finalizing_run (transcribe : list F32.t -> string + list string) (s : locals) :
  finalizing transcribe s =
  match buf_pcm16k s with
  | [] =>
      (Ret tt, s,
       [Print "Stopping recording..."; stop_signal;
        Print "Ready for next recording."])
  | _ :: _ =>
      let head :=
        [Print "Stopping recording..."; stop_signal;
         Print "Processing final transcription..."; processing_status;
         Transcribe (buf_pcm16k s)] in
      match transcribe (buf_pcm16k s) with
      | inl msg => (Raise (EngineError msg), s, head)
      | inr segments =>
          let final_text := strip (join segments) in
          (Ret tt, s,
           head
           ++ (if truthy final_text
               then [Print ("Final transcription: " ++ final_text);
                     SendMessage 0x31 (Encoded final_text)]
               else [no_speech])
           ++ [Print "Ready for next recording."])
      end
  end.
Proof.
  unfold finalizing, bind, print, send_message, perform, get, model_transcribe.
  destruct (buf_pcm16k s) as [ | x w ] eqn:Hw; cbn; [ reflexivity | ].
  destruct (transcribe (x :: w)) as [ msg | segments ]; cbn; [ reflexivity | ].
  destruct (truthy (strip (join segments))); reflexivity.
Qed.

(** C3 (as amended). With an empty window the finalizing step sends the
    stop signal and no text at all; the fallback text is what it sends when
    the window holds samples and the final decode yields no text. *)
Theorem finalizing_fallback :
  forall (transcribe : list F32.t -> string + list string) (s : locals),
    (buf_pcm16k s = [] ->
     messages (calls (finalizing transcribe) s) = [stop_signal])
    /\ (forall segments,
          buf_pcm16k s <> [] ->
          transcribe (buf_pcm16k s) = inr segments ->
          strip (join segments) = EmptyString ->
          messages (calls (finalizing transcribe) s)
          = [stop_signal; processing_status; no_speech]).
Proof.
  intros transcribe s. unfold calls. rewrite finalizing_run. split.
  - intros ->. reflexivity.
  - intros segments Hw Hseg Htext.
    destruct (buf_pcm16k s) as [ | x w ]; [ congruence | ].
    cbv zeta. rewrite Hseg, Htext. reflexivity.
Qed.

(** A silent sample in the window, an engine that hears nothing. *)
Lemma finalizing_fallback_witness :
  messages (calls (finalizing (Stub.say [" "%string])) (set_buf_pcm16k [F32.one] initial))
  = [stop_signal; processing_status; no_speech].
Proof.
  apply (proj2 (finalizing_fallback (Stub.say [" "%string])
                  (set_buf_pcm16k [F32.one] initial)) [" "%string]).
  - discriminate.
  - reflexivity.
  - reflexivity.
Defined.

(** C3 (as stated) fails: with an empty window the fallback text is not
    sent; the stop signal is the only message. *)
Lemma finalizing_empty_window_silent :
  buf_pcm16k initial = []
  /\ messages (calls (finalizing (Stub.say [])) initial) = [stop_signal]
  /\ ~ In no_speech (calls (finalizing (Stub.say [])) initial).
Proof.
  split; [ reflexivity | ]. split; [ reflexivity | ].
  cbv. intros H. repeat (destruct H as [ H | H ]; [ discriminate H | ]). exact H.
Qed.

(** C5 (as amended). The finalizing step sends the stop signal first;
    then, only when the window holds samples, the processing status, and
    after it the result of the final decode (the text, or the fallback
    when there is none). *)
Theorem finalizing_order :
  forall (transcribe : list F32.t -> string + list string) (s : locals),
    messages (calls (finalizing transcribe) s)
    = stop_signal
      :: match buf_pcm16k s with
         | [] => []
         | _ :: _ =>
             processing_status
             :: match transcribe (buf_pcm16k s) with
                | inl _ => []
                | inr segments =>
                    let final_text := strip (join segments) in
                    [if truthy final_text
                     then SendMessage 0x31 (Encoded final_text)
                     else no_speech]
                end
         end.
Proof.
  intros transcribe s. unfold calls. rewrite finalizing_run.
  destruct (buf_pcm16k s) as [ | x w ]; [ reflexivity | ].
  cbv zeta. destruct (transcribe (x :: w)) as [ msg | segments ]; [ reflexivity | ].
  destruct (truthy (strip (join segments))); reflexivity.
Qed.

(** C5 (as stated) fails: the stop signal is the first message of the
    finalizing step, not the last, and the processing status is not the
    first. *)
Lemma finalizing_stop_signal_first :
  let sent := messages (calls (finalizing (Stub.say ["hello"%string]))
                          (set_buf_pcm16k [F32.one] initial)) in
  sent = [stop_signal; processing_status; SendMessage 0x31 (Encoded "hello")]
  /\ ~ (exists rest, sent = (processing_status :: rest) ++ [stop_signal]).
Proof.
  split; [ reflexivity | ].
  intros [rest H]. cbv in H. discriminate H.
Qed.

(** C10. The final text is sent whatever the last emitted text is: the
    messages of the finalizing step do not depend on [last_terminal], which
    the step neither reads nor changes. *)
Theorem finalizing_bypasses_gate :
  forall (transcribe : list F32.t -> string + list string) (s : locals)
         (segments : list string),
    buf_pcm16k s <> [] ->
    transcribe (buf_pcm16k s) = inr segments ->
    strip (join segments) <> EmptyString ->
    messages (calls (finalizing transcribe) s)
    = [stop_signal; processing_status;
       SendMessage 0x31 (Encoded (strip (join segments)))]
    /\ result (finalizing transcribe) s = Ret tt
    /\ last_terminal (after (finalizing transcribe) s) = last_terminal s.
Proof.
  intros transcribe s segments Hw Hseg Htext.
  unfold calls, result, after. rewrite finalizing_run.
  destruct (buf_pcm16k s) as [ | x w ]; [ congruence | ].
  cbv zeta. rewrite Hseg.
  apply truthy_spec in Htext. rewrite Htext. repeat split; reflexivity.
Qed.

(** The final text equals the last emitted text: the gate would hold it
    back, the finalizing step sends it. *)
Lemma finalizing_bypasses_gate_witness :
  let s := set_last_terminal "hello" (set_buf_pcm16k [F32.one] initial) in
  should_emit "hello" (last_terminal s) = false
  /\ messages (calls (finalizing (Stub.say [" hello "%string])) s)
     = [stop_signal; processing_status; SendMessage 0x31 (Encoded "hello")].
Proof.
  intros s. split; [ reflexivity | ].
  apply (finalizing_bypasses_gate (Stub.say [" hello "%string]) s [" hello "%string]).
  - discriminate.
  - reflexivity.
  - discriminate.
Defined.

(** ** One iteration of the recording loop *)

Section LoopFacts.

Variable resample : list F32.t -> Z -> Z -> list F32.t.
Variable transcribe : list F32.t -> string + list string.

(** A chunk that does not arrive at a tick is buffered and nothing else
    happens. *)
Lemma loop_body_no_tick s pkt now now' :
  tick now s = false ->
  loop_body resample transcribe (Packet pkt now now') s
  = (Ret Next, set_buf_pcm8k (buf_pcm8k s ++ pkt) s, []).
Proof.
  unfold tick, STEP_SEC. intros Htick.
  unfold loop_body, try_except, bind, modify, on_packet, get, bind.
  cbn. rewrite Htick. reflexivity.
Qed.

(** A chunk that arrives at a tick, when the buffer converts. *)
Lemma loop_body_tick s pkt now now' pcm_f32 :
  tick now s = true ->
  pcm16_to_f32 (buf_pcm8k s ++ pkt) = Some pcm_f32 ->
  loop_body resample transcribe (Packet pkt now now') s
  = let s1 := set_buf_pcm8k [] (set_last_t now' s) in
    match pcm_f32 with
    | [] => (Ret Next, s1, [])
    | _ :: _ =>
        let w := append_trim (buf_pcm16k s) (resample pcm_f32 RATE_IN RATE_OUT) in
        let s2 := set_buf_pcm16k w s1 in
        match transcribe w with
        | inl msg => (Raise (EngineError msg), s2, [Transcribe w])
        | inr segments =>
            let text := strip (join segments) in
            if should_emit text (last_terminal s)
            then (Ret Next, set_last_terminal text s2,
                  [Transcribe w; Print ("Transcription: " ++ text);
                   SendMessage 0x31 (Encoded text)])
            else (Ret Next, s2, [Transcribe w])
        end
    end.
Proof.
  unfold tick, STEP_SEC. intros Htick Hconv.
  unfold loop_body, try_except, bind, modify, on_packet, get, bind, convert.
  cbn. rewrite Htick. cbn. rewrite Hconv. cbn.
  destruct pcm_f32 as [ | x a ]; [ reflexivity | ].
  cbn. unfold model_transcribe, bind, perform. cbn.
  destruct (transcribe _) as [ msg | segments ]; cbn; [ reflexivity | ].
  unfold emit_if_changed, bind, get. cbn.
  destruct (should_emit _ _); reflexivity.
Qed.

(** A buffer that does not hold whole samples: the conversion raises
    before the buffer is cleared. *)
Lemma loop_body_tick_malformed s pkt now now' :
  tick now s = true ->
  pcm16_to_f32 (buf_pcm8k s ++ pkt) = None ->
  loop_body resample transcribe (Packet pkt now now') s
  = (Raise (ValueError "buffer size must be a multiple of element size"),
     set_last_t now' (set_buf_pcm8k (buf_pcm8k s ++ pkt) s), []).
Proof.
  unfold tick, STEP_SEC. intros Htick Hconv.
  unfold loop_body, try_except, bind, modify, on_packet, get, bind, convert.
  cbn. rewrite Htick. cbn. rewrite Hconv. reflexivity.
Qed.

Lemma loop_body_timeout s : loop_body resample transcribe Timeout s = (Ret Next, s, []).
Proof. reflexivity. Qed.

Lemma loop_body_end_of_stream s : loop_body resample transcribe EndOfStream s = (Ret Break, s, []).
Proof. reflexivity. Qed.

Lemma record_loop_cons ev rest s :
  record_loop resample transcribe (ev :: rest) s
  = match loop_body resample transcribe ev s with
    | (Ret Next, s1, l1) =>
        let '(r, s2, l2) := record_loop resample transcribe rest s1 in (r, s2, l1 ++ l2)
    | (Ret Break, s1, l1) => (Ret StreamEnded, s1, l1)
    | (Raise e, s1, l1) => (Raise e, s1, l1)
    end.
Proof.
  cbn [record_loop]. unfold bind at 1.
  destruct (loop_body resample transcribe ev s) as [[[f | e] s1] l1];
    [ destruct f | ]; try reflexivity.
  unfold ret. now rewrite app_nil_r.
Qed.

(** The iterations that ran before the end-of-stream marker are not
    affected by it, and the loop ends there. *)
Lemma record_loop_end_of_stream pre rest : forall s s1 l,
  record_loop resample transcribe pre s = (Ret StopRequested, s1, l) ->
  record_loop resample transcribe (pre ++ EndOfStream :: rest) s = (Ret StreamEnded, s1, l).
Proof.
  induction pre as [ | ev pre IH ]; intros s s1 l Hrun.
  - cbn in Hrun. injection Hrun as <- <-. reflexivity.
  - cbn [app]. rewrite record_loop_cons in *.
    destruct (loop_body resample transcribe ev s) as [[[f | e] s'] l'];
      [ destruct f | ]; try discriminate Hrun.
    destruct (record_loop resample transcribe pre s') as [[r2 s2] l2] eqn:Hpre.
    injection Hrun as -> <- <-.
    now rewrite (IH _ _ _ Hpre).
Qed.

End LoopFacts.




(** C7. At a tick the raw buffer is left empty whenever it held whole
    16-bit samples: when the converted block is empty and the decode is
    skipped, when the decode runs and its text is sent or held back, and
    when the decode raises. *)
Theorem raw_buffer_cleared_at_tick :
  forall (resample : list F32.t -> Z -> Z -> list F32.t)
         (transcribe : list F32.t -> string + list string)
         (s : locals) (pkt : list byte) (now now' : float),
    tick now s = true ->
    Nat.even (List.length (buf_pcm8k s ++ pkt)) = true ->
    buf_pcm8k (after (loop_body resample transcribe (Packet pkt now now')) s) = [].
Proof.
  intros resample transcribe s pkt now now' Htick Hev.
  destruct (pcm16_to_f32_total _ Hev) as (pcm_f32 & Hconv).
  unfold after. rewrite (loop_body_tick _ _ _ _ _ _ _ Htick Hconv).
  destruct pcm_f32 as [ | x a ]; [ reflexivity | ].
  cbv zeta. destruct (transcribe _) as [ msg | segments ]; [ reflexivity | ].
  destruct (should_emit _ _); reflexivity.
Qed.

(** The decode raises: the two bytes received are gone all the same. *)
Lemma raw_buffer_cleared_at_tick_witness :
  let step := loop_body Stub.resample (Stub.fail "boom")
                (Packet [x00; x40] 2%float 2%float) in
  tick 2%float initial = true
  /\ Nat.even (List.length (buf_pcm8k initial ++ [x00; x40])) = true
  /\ result step initial = Raise (EngineError "boom")
  /\ buf_pcm8k (after step initial) = [].
Proof.
  intros step. split; [ reflexivity | ]. split; [ reflexivity | ].
  split; [ reflexivity | ].
  apply (raw_buffer_cleared_at_tick Stub.resample (Stub.fail "boom")
           initial [x00; x40] 2%float 2%float); reflexivity.
Defined.

(** ** From the conversion to the window *)




(** ** Decode errors *)

Lemma split_at_call (la lb l1 l2 : list call) (c : call) :
  la ++ lb = l1 ++ c :: l2 ->
  (exists m, la = l1 ++ c :: m /\ l2 = m ++ lb)
  \/ (exists m, l1 = la ++ m /\ lb = m ++ c :: l2).
Proof.
  intros H. apply app_eq_app in H as [l [[H1 H2] | [H1 H2]]].
  - destruct l as [ | c' l ].
    + right. exists []. rewrite app_nil_r in *. cbn in H2. now split.
    + injection H2 as <- ->. left. now exists l.
  - right. now exists l.
Qed.

Create HintDb fatal.

Section Fatal.

Variable resample : list F32.t -> Z -> Z -> list F32.t.
Variable transcribe : list F32.t -> string + list string.

(** A computation that never calls the engine. *)
Lemma fatal_silent {A} (P : list call -> Prop) (c : M A) :
  (forall s x, ~ In (Transcribe x) (calls c s)) -> fatal transcribe P c.
Proof.
  intros Hc s l1 x l2 msg Hcalls _. exfalso. apply (Hc s x).
  rewrite Hcalls. apply in_elt.
Qed.

Lemma fatal_weaken {A} (P Q : list call -> Prop) (c : M A) :
  (forall l, P l -> Q l) -> fatal transcribe P c -> fatal transcribe Q c.
Proof.
  intros HPQ Hc s l1 x l2 msg Hcalls Hx.
  destruct (Hc s l1 x l2 msg Hcalls Hx). auto.
Qed.

Lemma fatal_bind {A B} (P : list call -> Prop) (c : M A) (k : A -> M B) :
  fatal transcribe P c -> (forall a, fatal transcribe P (k a)) -> fatal transcribe P (bind c k).
Proof.
  intros Hc Hk s l1 x l2 msg Hcalls Hx.
  specialize (Hc s). unfold calls, result, bind in *.
  destruct (c s) as [[[a | e] s1] la]; cbn [fst snd] in *.
  - specialize (Hk a s1). unfold calls, result in Hk.
    destruct (k a s1) as [[r2 s2] lb]; cbn [fst snd] in *.
    apply split_at_call in Hcalls as [(m & -> & ->) | (m & -> & ->)].
    + destruct (Hc l1 x m msg eq_refl Hx) as [Habs _]. discriminate Habs.
    + apply (Hk m x l2 msg eq_refl Hx).
  - destruct (Hc l1 x l2 msg Hcalls Hx) as [Hr HP].
    injection Hr as ->. now split.
Qed.

Lemma fatal_ret {A} P (a : A) : fatal transcribe P (ret a).
Proof. apply fatal_silent. intros s x []. Qed.

Lemma fatal_raise {A} P (e : exn) : fatal transcribe P (@raise A e).
Proof. apply fatal_silent. intros s x []. Qed.

Lemma fatal_get P : fatal transcribe P get.
Proof. apply fatal_silent. intros s x []. Qed.

Lemma fatal_modify P f : fatal transcribe P (modify f).
Proof. apply fatal_silent. intros s x []. Qed.

Lemma fatal_perform P c : is_transcribe c = false -> fatal transcribe P (perform c).
Proof.
  intros Hc. apply fatal_silent. intros s x [Heq | []]. subst c. discriminate Hc.
Qed.

Lemma fatal_print P line : fatal transcribe P (print line).
Proof. now apply fatal_perform. Qed.

Lemma fatal_send_message P code body : fatal transcribe P (send_message code body).
Proof. now apply fatal_perform. Qed.

Lemma fatal_model_transcribe (P : list call -> Prop) audio :
  P [] -> fatal transcribe P (model_transcribe transcribe audio).
Proof.
  intros HP s l1 x l2 msg. unfold calls, result, model_transcribe, bind, perform.
  destruct (transcribe audio) as [ m | segments ] eqn:Hres; cbn;
    intros Hcalls Hx.
  - destruct l1 as [ | c [ | c' l1 ] ]; try discriminate Hcalls.
    injection Hcalls as <- <-. rewrite Hres in Hx. injection Hx as ->.
    now split.
  - destruct l1 as [ | c [ | c' l1 ] ]; try discriminate Hcalls.
    injection Hcalls as <- <-. rewrite Hres in Hx. discriminate Hx.
Qed.


#[local] Hint Resolve fatal_ret fatal_raise fatal_get fatal_modify fatal_print
  fatal_send_message : fatal.

(** Structural steps: a sequence, a conditional, a case analysis. *)
Ltac fatal_steps :=
  repeat first
    [ progress cbv zeta
    | match goal with
      | |- fatal _ _ (bind _ _) => apply fatal_bind; [ | intros ]
      | |- fatal _ _ (if ?b then _ else _) => destruct b
      | |- fatal _ _ (match ?x with _ => _ end) => destruct x
      | |- fatal _ _ (model_transcribe _ _) =>
          apply fatal_model_transcribe; assumption
      | |- fatal _ _ (perform _) => apply fatal_perform; reflexivity
      end
    | solve [ auto with fatal ] ].

Section Steps.

Variable P : list call -> Prop.
Hypothesis P_nil : P [].






Lemma fatal_startup : fatal transcribe P startup.
Proof. unfold startup. fatal_steps. Qed.

End Steps.

(** *** [rx_audio] stays attached *)

Lemma keeps_rx_bind {A B} (c : M A) (k : A -> M B) :
  keeps_rx c -> (forall a, keeps_rx (k a)) -> keeps_rx (bind c k).
Proof.
  intros Hc Hk s. specialize (Hc s). unfold after, bind in *.
  destruct (c s) as [[[a | e] s1] la]; cbn [fst snd] in *; [ | exact Hc ].
  specialize (Hk a s1). unfold after in Hk.
  destruct (k a s1) as [[r2 s2] lb]; cbn [fst snd] in *. congruence.
Qed.

Lemma keeps_rx_try_except {A} (body : M A) handler :
  keeps_rx body -> (forall e h, handler e = Some h -> keeps_rx h) ->
  keeps_rx (try_except body handler).
Proof.
  intros Hb Hh s. specialize (Hb s). unfold after, try_except in *.
  destruct (body s) as [[[a | e] s1] la]; cbn [fst snd] in *; [ exact Hb | ].
  destruct (handler e) as [ h | ] eqn:Hhe; [ | exact Hb ].
  specialize (Hh e h Hhe s1). unfold after in Hh.
  destruct (h s1) as [[r2 s2] lb]; cbn [fst snd] in *. congruence.
Qed.

Lemma keeps_rx_try_finally {A} (body : M A) fin :
  keeps_rx body -> (forall r, keeps_rx (fin r)) ->
  keeps_rx (try_finally body fin).
Proof.
  intros Hb Hf s. specialize (Hb s). unfold after, try_finally in *.
  destruct (body s) as [[r s1] la]; cbn [fst snd] in *.
  specialize (Hf r s1). unfold after in Hf.
  destruct (fin r s1) as [[r2 s2] lb]; cbn [fst snd] in *. congruence.
Qed.

Ltac keeps_steps :=
  repeat first
    [ progress cbv zeta
    | match goal with
      | |- keeps_rx (bind _ _) => apply keeps_rx_bind; [ | intros ]
      | |- keeps_rx (if ?b then _ else _) => destruct b
      | |- keeps_rx (match ?x with _ => _ end) => destruct x
      end
    | solve [ intros ?; reflexivity ] ].

Lemma keeps_rx_loop_body ev : keeps_rx (loop_body resample transcribe ev).
Proof.
  unfold loop_body. apply keeps_rx_try_except.
  - destruct ev; keeps_steps.
    unfold on_packet, convert, model_transcribe, emit_if_changed. keeps_steps.
  - intros [ ] h Hh; try discriminate Hh. injection Hh as <-. keeps_steps.
Qed.

Lemma keeps_rx_record_loop evs : keeps_rx (record_loop resample transcribe evs).
Proof.
  induction evs as [ | ev evs IH ]; cbn [record_loop]; [ keeps_steps | ].
  apply keeps_rx_bind; [ apply keeps_rx_loop_body | ].
  intros [ ]; [ exact IH | keeps_steps ].
Qed.

Lemma keeps_rx_recording ph : keeps_rx (recording resample transcribe ph).
Proof.
  unfold recording, finalizing, model_transcribe. keeps_steps.
  apply keeps_rx_try_finally; [ apply keeps_rx_record_loop | ].
  intros r. unfold cancel_stop_task. keeps_steps.
Qed.

Lemma keeps_rx_session phases : keeps_rx (session resample transcribe phases).
Proof.
  induction phases as [ | ph phases IH ]; cbn [session]; [ keeps_steps | ].
  apply keeps_rx_bind; [ apply keeps_rx_recording | intros _; exact IH ].
Qed.

(** The audio receiver is attached once [startup] has run. *)
Lemma rx_audio_attached phases s :
  rx_audio (after (bind startup (fun _ => session resample transcribe phases)) s)
  = true.
Proof.
  pose proof (keeps_rx_session phases) as Hk.
  unfold after, bind.
  destruct (startup s) as [[r s1] la] eqn:Hs.
  assert (Hr : r = Ret tt /\ rx_audio s1 = true).
  { unfold startup, bind, print, perform, modify in Hs. cbn in Hs.
    injection Hs as <- <- _. now split. }
  destruct Hr as [-> Hrx].
  specialize (Hk s1). unfold after in Hk.
  destruct (session resample transcribe phases s1) as [[r2 s2] lb].
  cbn [fst snd] in *. congruence.
Qed.

End Fatal.


(** The calls of the handlers and of [cleanup], once the receiver is
    attached. *)
Lemma handlers_then_cleanup (e : exn) (s : locals) :
  rx_audio s = true ->
  exists h lh,
    handlers e = Some h
    /\ h s = (Ret tt, s, lh)
    /\ cleanup s = (Ret tt, s,
                    [RxAudioDetach; DetachPrintResponseHandler; StopFrameApp;
                     Disconnect; Print "Disconnected from Frame"])
    /\ decodes lh = []
    /\ (forall msg, e = EngineError msg ->
                    lh = [Print ("An error occurred: " ++ msg); PrintExc]).
Proof.
  intros Hrx.
  assert (Hc : cleanup s = (Ret tt, s,
                    [RxAudioDetach; DetachPrintResponseHandler; StopFrameApp;
                     Disconnect; Print "Disconnected from Frame"])).
  { unfold cleanup, bind, get, print, perform. rewrite Hrx. reflexivity. }
  destruct e as [ m | m | | ]; eexists; eexists;
    (split; [ reflexivity | ]); (split; [ reflexivity | ]);
    (split; [ exact Hc | ]); (split; [ reflexivity | ]);
    intros msg Hmsg; try discriminate Hmsg.
  injection Hmsg as ->. reflexivity.
Qed.

(** * Further properties *)

(** ** [pcm16_to_f32] *)

(** X1. [pcm16_to_f32] raises exactly on the byte strings of odd length. *)
Theorem pcm16_to_f32_raises_iff_odd :
  forall pcm : list byte,
    pcm16_to_f32 pcm = None <-> Nat.even (List.length pcm) = false.
Proof.
  intros pcm. unfold pcm16_to_f32. split.
  - intros H. destruct (Nat.even (List.length pcm)) eqn:Hev; [ | reflexivity ].
    destruct (frombuffer_int16_even pcm Hev) as (l & Hl & _).
    rewrite Hl in H. discriminate H.
  - intros Hev. now rewrite (frombuffer_int16_odd pcm Hev).
Qed.

Lemma int16_samples_exact :
  all_from (Z.to_nat 65536) (-32768) sample_exact = true.
Proof. vm_compute. reflexivity. Qed.

Lemma sample_of_int16_exact n :
  -32768 <= n <= 32767 ->
  f32_units (sample_of_int16 n) = Some (n * 2 ^ 23)
  /\ SFltb (sample_of_int16 n) F32.one = true.
Proof.
  intros Hn.
  pose proof (all_from_spec sample_exact _ _ int16_samples_exact n) as H.
  unfold sample_exact in H.
  apply andb_prop in H as [Hv Hlt]; [ | lia ].
  split; [ | exact Hlt ].
  destruct (f32_units (sample_of_int16 n)) as [ v | ]; [ | discriminate Hv ].
  apply Z.eqb_eq in Hv. now subst v.
Qed.

(** X2. Every sample that [pcm16_to_f32] returns is exactly [n / 32768]
    for an [int16] value [n] (no rounding takes place), and is strictly
    below [1.0]: the range is [[-1.0, 1.0)]. *)
Theorem pcm16_to_f32_exact :
  forall (pcm : list byte) (a : list F32.t),
    pcm16_to_f32 pcm = Some a ->
    Forall (fun x => SFltb x F32.one = true
                     /\ exists n, -32768 <= n <= 32767
                                  /\ f32_units x = Some (n * 2 ^ 23)) a.
Proof.
  intros pcm a Ha. unfold pcm16_to_f32 in Ha.
  destruct (frombuffer_int16 pcm) as [ l | ] eqn:Hl; [ | discriminate Ha ].
  injection Ha as <-. apply Forall_map.
  eapply Forall_impl; [ | apply (frombuffer_int16_range pcm l Hl) ].
  intros n Hn. destruct (sample_of_int16_exact n Hn) as [Hv Hlt].
  split; [ exact Hlt | ]. now exists n.
Qed.

Lemma pcm16_to_f32_exact_witness :
  pcm16_to_f32 [x00; x80; xff; x7f]
  = Some [sample_of_int16 (-32768); sample_of_int16 32767]
  /\ Forall (fun x => SFltb x F32.one = true
                      /\ exists n, -32768 <= n <= 32767
                                   /\ f32_units x = Some (n * 2 ^ 23))
       [sample_of_int16 (-32768); sample_of_int16 32767].
Proof.
  split; [ reflexivity | ].
  apply (pcm16_to_f32_exact [x00; x80; xff; x7f]). reflexivity.
Defined.

Lemma int16_of_bytes_inj lo hi lo' hi' :
  int16_of_bytes lo hi = int16_of_bytes lo' hi' -> lo = lo' /\ hi = hi'.
Proof.
  unfold int16_of_bytes. intros H.
  pose proof (Byte.to_N_bounded lo). pose proof (Byte.to_N_bounded hi).
  pose proof (Byte.to_N_bounded lo'). pose proof (Byte.to_N_bounded hi').
  assert (Hlo : Byte.to_N lo = Byte.to_N lo' /\ Byte.to_N hi = Byte.to_N hi').
  { destruct (Z.ltb_spec (Z.of_N (Byte.to_N lo) + 256 * Z.of_N (Byte.to_N hi)) 32768);
      destruct (Z.ltb_spec (Z.of_N (Byte.to_N lo') + 256 * Z.of_N (Byte.to_N hi')) 32768);
      lia. }
  destruct Hlo as [Hl Hh].
  pose proof (Byte.of_to_N lo) as E1. pose proof (Byte.of_to_N lo') as E2.
  pose proof (Byte.of_to_N hi) as E3. pose proof (Byte.of_to_N hi') as E4.
  rewrite Hl in E1. rewrite Hh in E3. split; congruence.
Qed.

Lemma sample_of_int16_inj n m :
  -32768 <= n <= 32767 -> -32768 <= m <= 32767 ->
  sample_of_int16 n = sample_of_int16 m -> n = m.
Proof.
  intros Hn Hm H.
  destruct (sample_of_int16_exact n Hn) as [Hvn _].
  destruct (sample_of_int16_exact m Hm) as [Hvm _].
  rewrite H, Hvm in Hvn. injection Hvn as Hv. lia.
Qed.

Lemma frombuffer_int16_inj pcm : forall pcm' a a',
  frombuffer_int16 pcm = Some a -> frombuffer_int16 pcm' = Some a' ->
  map sample_of_int16 a = map sample_of_int16 a' -> pcm = pcm'.
Proof.
  induction pcm as [ | b | lo hi rest IH ] using pairs_ind;
    intros pcm' a a' Ha Ha' Hmap; cbn [frombuffer_int16] in Ha.
  - injection Ha as <-. destruct a' as [ | n a' ]; [ | discriminate Hmap ].
    destruct pcm' as [ | lo' [ | hi' rest' ] ]; cbn [frombuffer_int16] in Ha';
      [ reflexivity | discriminate Ha' | ].
    destruct (frombuffer_int16 rest'); discriminate Ha'.
  - discriminate Ha.
  - destruct (frombuffer_int16 rest) as [ l | ] eqn:Hl; [ | discriminate Ha ].
    injection Ha as <-.
    destruct pcm' as [ | lo' [ | hi' rest' ] ]; cbn [frombuffer_int16] in Ha'.
    + injection Ha' as <-. discriminate Hmap.
    + discriminate Ha'.
    + destruct (frombuffer_int16 rest') as [ l' | ] eqn:Hl'; [ | discriminate Ha' ].
      injection Ha' as <-. cbn [map] in Hmap. injection Hmap as Hhd Htl.
      apply sample_of_int16_inj in Hhd; try apply int16_of_bytes_range.
      apply int16_of_bytes_inj in Hhd as [-> ->].
      f_equal. f_equal. exact (IH rest' l l' eq_refl Hl' Htl).
Qed.

(** X3. The conversion loses nothing: two byte strings that convert to the
    same array of samples are equal. *)
Theorem pcm16_to_f32_injective :
  forall (pcm pcm' : list byte) (a : list F32.t),
    pcm16_to_f32 pcm = Some a -> pcm16_to_f32 pcm' = Some a -> pcm = pcm'.
Proof.
  intros pcm pcm' a H H'. unfold pcm16_to_f32 in *.
  destruct (frombuffer_int16 pcm) as [ l | ] eqn:Hl; [ | discriminate H ].
  destruct (frombuffer_int16 pcm') as [ l' | ] eqn:Hl'; [ | discriminate H' ].
  injection H as <-. injection H' as Hmap.
  exact (frombuffer_int16_inj pcm pcm' l l' Hl Hl' (eq_sym Hmap)).
Qed.

Lemma pcm16_to_f32_injective_witness :
  pcm16_to_f32 [x34; x12] = Some [sample_of_int16 4660]
  /\ [x34; x12] = [x34; x12].
Proof.
  split; [ reflexivity | ].
  apply (pcm16_to_f32_injective [x34; x12] [x34; x12] [sample_of_int16 4660]);
    reflexivity.
Defined.

(** X4. Converting a buffer made of two parts, the first of which holds
    whole samples, is converting the parts and concatenating: chunks that
    end on a sample boundary can be buffered in any grouping. *)
Theorem pcm16_to_f32_app :
  forall a b : list byte,
    Nat.even (List.length a) = true ->
    pcm16_to_f32 (a ++ b)
    = match pcm16_to_f32 a, pcm16_to_f32 b with
      | Some x, Some y => Some (x ++ y)
      | _, _ => None
      end.
Proof.
  intros a b. unfold pcm16_to_f32.
  induction a as [ | c | lo hi rest IH ] using pairs_ind; intros Hev.
  - cbn [app frombuffer_int16].
    destruct (frombuffer_int16 b); reflexivity.
  - discriminate Hev.
  - specialize (IH Hev). cbn [app frombuffer_int16].
    destruct (frombuffer_int16 (rest ++ b)) as [ l | ];
      destruct (frombuffer_int16 rest) as [ l1 | ];
      destruct (frombuffer_int16 b) as [ l2 | ];
      try discriminate IH; try reflexivity.
    injection IH as IH. cbn [map app]. now rewrite IH.
Qed.

Lemma pcm16_to_f32_app_witness :
  Nat.even (List.length [x00; x40]) = true
  /\ pcm16_to_f32 ([x00; x40] ++ [xff; x7f])
     = Some ([sample_of_int16 16384] ++ [sample_of_int16 32767]).
Proof.
  split; [ reflexivity | ].
  apply (pcm16_to_f32_app [x00; x40] [xff; x7f]). reflexivity.
Defined.

(** ** Rolling window *)

(** X5. Appending two blocks in turn leaves the window that appending
    their concatenation leaves. *)
Theorem append_trim_app :
  forall (A : Type) (buf a b : list A),
    append_trim (append_trim buf a) b = append_trim buf (a ++ b).
Proof.
  intros A buf a b.
  rewrite !append_trim_most_recent, most_recent_app, app_assoc
    by (rewrite max_samples_eq; lia).
  reflexivity.
Qed.

(** X6. A block that holds at least the capacity evicts the whole former
    window: what remains is the end of the block. *)
Theorem append_trim_oversize :
  forall (A : Type) (buf up : list A),
    max_samples <= Z.of_nat (List.length up) ->
    append_trim buf up = most_recent max_samples up.
Proof.
  intros A buf up Hup.
  rewrite append_trim_most_recent. unfold most_recent.
  rewrite skipn_app, length_app.
  rewrite skipn_all2 by lia. cbn [app]. f_equal. lia.
Qed.

Lemma append_trim_oversize_witness :
  let up := repeat F32.minus_one (Z.to_nat max_samples) in
  max_samples <= Z.of_nat (List.length up)
  /\ append_trim [F32.one] up = most_recent max_samples up.
Proof.
  intros up.
  assert (H : max_samples <= Z.of_nat (List.length up)).
  { unfold up. rewrite repeat_length, max_samples_eq. lia. }
  split; [ exact H | ].
  apply (append_trim_oversize F32.t [F32.one] up H).
Defined.

(** ** The recording loop, case by case *)

Lemma loop_body_outcome
    (resample : list F32.t -> Z -> Z -> list F32.t)
    (transcribe : list F32.t -> string + list string)
    (ev : event) (s : locals) :
  body_outcome resample transcribe s (loop_body resample transcribe ev s).
Proof.
  destruct ev as [ | pkt now now' | ].
  - rewrite loop_body_timeout. apply BO_quiet; try reflexivity.
    intros _ _. right. exists []. now rewrite app_nil_r.
  - destruct (tick now s) eqn:Htick.
    + destruct (pcm16_to_f32 (buf_pcm8k s ++ pkt)) as [ pcm_f32 | ] eqn:Hconv.
      * rewrite (loop_body_tick _ _ _ _ _ _ _ Htick Hconv).
        destruct pcm_f32 as [ | x a ].
        { apply BO_quiet; try reflexivity. intros _ _. now left. }
        cbv zeta.
        destruct (transcribe _) as [ msg | segments ] eqn:Hres.
        { apply (BO_failed _ _ _ (x :: a)); try reflexivity;
            [ discriminate | exact Hres ]. }
        destruct (should_emit _ _) eqn:Hemit.
        { apply (BO_emitted _ _ _ (x :: a)); try reflexivity;
            [ discriminate | exact Hres | exact Hemit ]. }
        { apply (BO_held_back _ _ _ (x :: a) segments); try reflexivity;
            [ discriminate | exact Hres | exact Hemit ]. }
      * rewrite (loop_body_tick_malformed _ _ _ _ _ _ Htick Hconv).
        apply BO_quiet; try reflexivity. intros f Hf. discriminate Hf.
    + rewrite (loop_body_no_tick _ _ _ _ _ _ Htick).
      apply BO_quiet; try reflexivity. intros _ _. right. now exists pkt.
  - rewrite loop_body_end_of_stream. apply BO_quiet; try reflexivity.
    intros _ _. right. exists []. now rewrite app_nil_r.
Qed.

Section RecordingFacts.

Variable resample : list F32.t -> Z -> Z -> list F32.t.
Variable transcribe : list F32.t -> string + list string.

Lemma bind_perform {A} (c : call) (k : unit -> M A) (s : locals) :
  bind (perform c) k s = (let '(r, s2, l) := k tt s in (r, s2, c :: l)).
Proof. unfold bind, perform. destruct (k tt s) as [[r s2] l]. reflexivity. Qed.

Lemma bind_modify {A} (f : locals -> locals) (k : unit -> M A) (s : locals) :
  bind (modify f) k s = k tt (f s).
Proof. unfold bind, modify. destruct (k tt (f s)) as [[r s2] l]. reflexivity. Qed.

(** A recording is its six opening calls, then the loop and what follows
    it, run from the fresh locals. *)
Lemma recording_run (ph : phase) (s : locals) :
  recording resample transcribe ph s
  = (let '(r, s2, l) :=
       bind (try_finally (record_loop resample transcribe (events ph))
               (cancel_stop_task (enter_pressed ph)))
            (fun _ => finalizing transcribe) (fresh (start_time ph) s) in
     (r, s2,
      [Input "Press Enter to start recording: ";
       Print "Starting recording...";
       SendMessage 0x30 (Packed 1);
       SendMessage 0x31 (Encoded "Listening...");
       Print "Recording... (Press Enter to stop)";
       CreateStopTask] ++ l)).
Proof.
  unfold recording, print, send_message, fresh.
  rewrite bind_perform, !bind_modify, !bind_perform, bind_modify.
  destruct (bind _ _ _) as [[r s2] l]. reflexivity.
Qed.

(** The loop inside its [try ... finally], then the finalizing step, leave
    the locals that the loop leaves. *)
Lemma recording_tail_after (evs : list event) (pressed : bool) (s : locals) :
  after (bind (try_finally (record_loop resample transcribe evs)
                 (cancel_stop_task pressed))
              (fun _ => finalizing transcribe)) s
  = after (record_loop resample transcribe evs) s.
Proof.
  unfold after, bind, try_finally.
  destruct (record_loop resample transcribe evs s) as [[r s1] l].
  destruct r as [ [ | ] | e ]; destruct pressed;
    unfold cancel_stop_task, stop_task_done, negb, ret, perform;
    cbv beta iota zeta; try reflexivity;
    rewrite finalizing_run;
    destruct (buf_pcm16k s1) as [ | x w ]; try reflexivity;
    cbv zeta; destruct (transcribe (x :: w)); reflexivity.
Qed.

Lemma record_loop_window_bound (evs : list event) : forall s,
  Z.of_nat (List.length (buf_pcm16k s)) <= max_samples ->
  Z.of_nat (List.length (buf_pcm16k (after (record_loop resample transcribe evs) s)))
  <= max_samples.
Proof.
  induction evs as [ | ev evs IH ]; intros s Hs; [ exact Hs | ].
  unfold after. rewrite record_loop_cons.
  pose proof (loop_body_outcome resample transcribe ev s) as Hout.
  destruct (loop_body resample transcribe ev s) as [[r s1] l1].
  assert (Hs1 : Z.of_nat (List.length (buf_pcm16k s1)) <= max_samples).
  { inversion Hout; subst;
      match goal with
      | H : buf_pcm16k s1 = _ |- _ => rewrite H
      end; try exact Hs; rewrite append_trim_length; lia. }
  destruct r as [ [ | ] | e ]; try exact Hs1.
  specialize (IH s1 Hs1). unfold after in IH.
  destruct (record_loop resample transcribe evs s1) as [[r2 s2] l2].
  exact IH.
Qed.

Lemma last_default {A} (l : list A) : forall a d d' : A,
  last (a :: l) d = last (a :: l) d'.
Proof.
  induction l as [ | b l IH ]; intros a d d'; [ reflexivity | ].
  change (last (b :: l) d = last (b :: l) d'). apply IH.
Qed.

Lemma texts_app (l1 l2 : list call) : texts (l1 ++ l2) = texts l1 ++ texts l2.
Proof. apply flat_map_app. Qed.

Lemma record_loop_texts (evs : list event) : forall s,
  let l := texts (calls (record_loop resample transcribe evs) s) in
  no_repeat (last_terminal s :: l)
  /\ Forall (fun t => t <> EmptyString) l
  /\ last_terminal (after (record_loop resample transcribe evs) s)
     = last l (last_terminal s).
Proof.
  induction evs as [ | ev evs IH ]; intros s.
  - cbn. repeat split. constructor.
  - unfold calls, after. rewrite record_loop_cons.
    destruct (loop_body_outcome resample transcribe ev s)
      as [ r s1 Hw Hlt Hb | pcm msg s1 Hp Hw Hlt Hres
         | pcm segs s1 Hp Hw Hlt Hres Hemit
         | pcm segs s1 Hp Hw Hlt Hres Hemit ].
    + destruct r as [ [ | ] | e ]; cbn [fst snd app];
        try (cbn; rewrite Hlt; repeat split; constructor).
      specialize (IH s1). unfold calls, after in IH.
      destruct (record_loop resample transcribe evs s1) as [[r2 s2] l2].
      cbn [fst snd app] in *. rewrite <- Hlt. exact IH.
    + cbn. rewrite Hlt. repeat split. constructor.
    + specialize (IH s1). unfold calls, after in IH.
      destruct (record_loop resample transcribe evs s1) as [[r2 s2] l2].
      cbn [fst snd] in *. rewrite texts_app. cbn [texts flat_map text_of app].
      rewrite <- Hlt. exact IH.
    + specialize (IH s1). unfold calls, after in IH.
      destruct (record_loop resample transcribe evs s1) as [[r2 s2] l2].
      cbn [fst snd] in *. destruct IH as (Hrep & Hne & Hlast).
      rewrite texts_app.
      change (texts [Transcribe (buf_pcm16k s1);
                     Print ("Transcription: " ++ strip (join segs));
                     SendMessage 0x31 (Encoded (strip (join segs)))])
        with [strip (join segs)].
      cbn [app]. rewrite Hlt in Hrep, Hlast.
      unfold should_emit in Hemit. apply andb_prop in Hemit as [Ht Hd].
      apply truthy_spec in Ht. apply negb_true_iff, String.eqb_neq in Hd.
      split; [ | split ].
      * cbn [no_repeat]. split; [ congruence | exact Hrep ].
      * constructor; assumption.
      * rewrite Hlast. destruct (texts l2) as [ | t l ]; [ reflexivity | ].
        change (last (strip (join segs) :: t :: l) (last_terminal s))
          with (last (t :: l) (last_terminal s)).
        apply last_default.
Qed.

End RecordingFacts.

(** ** The end of the stream *)

(** C8. When the stream delivers the end-of-stream marker after
    iterations that ran without raising, the recording loop ends there
    without raising, with the locals those iterations left, whatever would
    have followed.  The recording goes on as on the normal path: the stop
    task is cancelled if it is still running, the stop signal is sent, and
    the final decode runs on the window accumulated so far (when it holds
    samples). *)
Theorem end_of_stream_finalizes :
  forall (resample : list F32.t -> Z -> Z -> list F32.t)
         (transcribe : list F32.t -> string + list string)
         (ph : phase) (pre rest : list event) (s s1 : locals) (l : list call),
    events ph = pre ++ EndOfStream :: rest ->
    record_loop resample transcribe pre (fresh (start_time ph) s)
    = (Ret StopRequested, s1, l) ->
    let w := buf_pcm16k s1 in
    let run := recording resample transcribe ph in
    record_loop resample transcribe (events ph) (fresh (start_time ph) s)
    = (Ret StreamEnded, s1, l)
    /\ calls run s
       = [Input "Press Enter to start recording: ";
          Print "Starting recording...";
          SendMessage 0x30 (Packed 1);
          SendMessage 0x31 (Encoded "Listening...");
          Print "Recording... (Press Enter to stop)";
          CreateStopTask]
         ++ l
         ++ (if enter_pressed ph then [] else [CancelStopTask])
         ++ calls (finalizing transcribe) s1
    /\ messages (calls run s)
       = SendMessage 0x30 (Packed 1)
         :: SendMessage 0x31 (Encoded "Listening...")
         :: messages l
         ++ stop_signal
            :: match w with
               | [] => []
               | _ :: _ =>
                   processing_status
                   :: match transcribe w with
                      | inl _ => []
                      | inr segments =>
                          let final_text := strip (join segments) in
                          [if truthy final_text
                           then SendMessage 0x31 (Encoded final_text)
                           else no_speech]
                      end
               end
    /\ decodes (calls run s)
       = decodes l ++ match w with [] => [] | _ :: _ => [Transcribe w] end
    /\ result run s
       = match w with
         | [] => Ret tt
         | _ :: _ =>
             match transcribe w with
             | inl msg => Raise (EngineError msg)
             | inr _ => Ret tt
             end
         end
    /\ buf_pcm16k (after run s) = w.
Proof.
  intros resample transcribe ph pre rest s s1 l Hev Hrun w run.
  assert (Heos : record_loop resample transcribe (events ph)
                   (fresh (start_time ph) s) = (Ret StreamEnded, s1, l)).
  { rewrite Hev. now apply record_loop_end_of_stream. }
  split; [ exact Heos | ].
  assert (Hrec : run s
                 = (let '(r, s2, lf) := finalizing transcribe s1 in
                    (r, s2,
                     [Input "Press Enter to start recording: ";
                      Print "Starting recording...";
                      SendMessage 0x30 (Packed 1);
                      SendMessage 0x31 (Encoded "Listening...");
                      Print "Recording... (Press Enter to stop)";
                      CreateStopTask]
                     ++ l
                     ++ (if enter_pressed ph then [] else [CancelStopTask])
                     ++ lf))).
  { subst run. rewrite recording_run.
    unfold bind, try_finally, cancel_stop_task. rewrite Heos.
    cbn [stop_task_done].
    destruct (enter_pressed ph); cbn [negb]; unfold perform, ret;
      destruct (finalizing transcribe s1) as [[r s2] lf];
      now rewrite <- ?app_assoc. }
  unfold calls, result, after. rewrite Hrec.
  pose proof (finalizing_run transcribe s1) as Hfin.
  destruct (finalizing transcribe s1) as [[r s2] lf]. cbn [fst snd].
  split; [ reflexivity | ].
  assert (Hmsg : forall a b, messages (a ++ b) = messages a ++ messages b)
    by (intros; apply filter_app).
  assert (Hdec : forall a b, decodes (a ++ b) = decodes a ++ decodes b)
    by (intros; apply filter_app).
  assert (Hcancel : messages (if enter_pressed ph then [] else [CancelStopTask]) = []
                    /\ decodes (if enter_pressed ph then [] else [CancelStopTask]) = [])
    by (destruct (enter_pressed ph); split; reflexivity).
  destruct Hcancel as [Hcm Hcd].
  rewrite !Hmsg, !Hdec, Hcm, Hcd. cbn [app].
  change (messages [Input "Press Enter to start recording: ";
                    Print "Starting recording...";
                    SendMessage 0x30 (Packed 1);
                    SendMessage 0x31 (Encoded "Listening...");
                    Print "Recording... (Press Enter to stop)";
                    CreateStopTask])
    with [SendMessage 0x30 (Packed 1); SendMessage 0x31 (Encoded "Listening...")].
  change (decodes [Input "Press Enter to start recording: ";
                   Print "Starting recording...";
                   SendMessage 0x30 (Packed 1);
                   SendMessage 0x31 (Encoded "Listening...");
                   Print "Recording... (Press Enter to stop)";
                   CreateStopTask])
    with (@nil call).
  cbn [app].
  subst w. destruct (buf_pcm16k s1) as [ | x a ] eqn:Hw.
  - injection Hfin as -> -> ->. repeat split; first [ reflexivity | exact Hw ].
  - cbv zeta in Hfin. destruct (transcribe (x :: a)) as [ msg | segments ].
    + injection Hfin as -> -> ->.
      repeat split; first [ reflexivity | exact Hw ].
    + injection Hfin as -> -> ->.
      destruct (truthy (strip (join segments)));
        repeat split; first [ reflexivity | exact Hw ].
Qed.

(** The witness of C8: one sample, then the marker, then a chunk that is
    never read; the user has not pressed Enter. *)
Lemma end_of_stream_finalizes_witness :
  let pre := [Packet [x00; x40] 2%float 2%float] in
  let rest := [Packet [x00; x40] 4%float 4%float] in
  let ph := {| start_time := 0%float;
               events := pre ++ EndOfStream :: rest;
               enter_pressed := false |} in
  let w := Stub.resample [sample_of_int16 16384] RATE_IN RATE_OUT in
  let run := recording Stub.resample (Stub.say ["hi"%string]) ph in
  events ph = pre ++ EndOfStream :: rest
  /\ result (record_loop Stub.resample (Stub.say ["hi"%string]) (events ph))
       (fresh (start_time ph) initial) = Ret StreamEnded
  /\ messages (calls run initial)
     = [SendMessage 0x30 (Packed 1);
        SendMessage 0x31 (Encoded "Listening...");
        SendMessage 0x31 (Encoded "hi");
        stop_signal; processing_status;
        SendMessage 0x31 (Encoded "hi")]
  /\ decodes (calls run initial) = [Transcribe w; Transcribe w]
  /\ In CancelStopTask (calls run initial)
  /\ result run initial = Ret tt
  /\ buf_pcm16k (after run initial) = w.
Proof.
  intros pre rest ph w run.
  destruct (end_of_stream_finalizes Stub.resample (Stub.say ["hi"%string])
              ph pre rest initial
              (after (record_loop Stub.resample (Stub.say ["hi"%string]) pre)
                 (fresh (start_time ph) initial))
              (calls (record_loop Stub.resample (Stub.say ["hi"%string]) pre)
                 (fresh (start_time ph) initial))
              eq_refl eq_refl)
    as (Hloop & Hcalls & Hmsg & Hdec & Hres & Hwin).
  split; [ reflexivity | ].
  split; [ unfold result; rewrite Hloop; reflexivity | ].
  split; [ exact Hmsg | ]. split; [ exact Hdec | ].
  split; [ cbv; repeat first [ left; reflexivity | right ] | ].
  split; [ exact Hres | exact Hwin ].
Defined.

(** ** The recording loop and one recording *)

(** X7. A timeout of the bounded wait changes nothing: the recording loop
    run on a stream of events behaves as on the stream without its
    timeouts. *)
Theorem record_loop_skips_timeouts :
  forall (resample : list F32.t -> Z -> Z -> list F32.t)
         (transcribe : list F32.t -> string + list string)
         (evs : list event) (s : locals),
    record_loop resample transcribe
      (filter (fun ev => negb (is_timeout ev)) evs) s
    = record_loop resample transcribe evs s.
Proof.
  intros resample transcribe evs.
  induction evs as [ | ev evs IH ]; intros s; [ reflexivity | ].
  destruct ev as [ | pkt now now' | ]; cbn [filter is_timeout negb].
  - rewrite (record_loop_cons _ _ Timeout), loop_body_timeout, IH.
    destruct (record_loop resample transcribe evs s) as [[r s2] l2].
    reflexivity.
  - rewrite !record_loop_cons.
    destruct (loop_body resample transcribe (Packet pkt now now') s)
      as [[[[ | ] | e] s1] l1]; try reflexivity.
    now rewrite IH.
  - rewrite !record_loop_cons, loop_body_end_of_stream. reflexivity.
Qed.

(** X8. Every recording starts from a clean slate: what a recording does
    depends on nothing that an earlier recording left in the raw buffer,
    the window, the last emitted text or the clock reading. *)
Theorem recording_clean_slate :
  forall (resample : list F32.t -> Z -> Z -> list F32.t)
         (transcribe : list F32.t -> string + list string)
         (ph : phase) (s s' : locals),
    rx_audio s = rx_audio s' ->
    recording resample transcribe ph s = recording resample transcribe ph s'.
Proof.
  intros resample transcribe ph s s' Hrx.
  rewrite !recording_run.
  replace (fresh (start_time ph) s') with (fresh (start_time ph) s);
    [ reflexivity | ].
  unfold fresh, set_last_t, set_last_terminal, set_buf_pcm16k, set_buf_pcm8k.
  cbn. now rewrite Hrx.
Qed.

(** A full window and a last text left by an earlier recording. *)
Lemma recording_clean_slate_witness :
  let ph := {| start_time := 0%float;
               events := [Packet [x00; x40] 2%float 2%float];
               enter_pressed := true |} in
  let s' := set_last_terminal "hi" (set_buf_pcm16k [F32.one; F32.one] initial) in
  rx_audio initial = rx_audio s'
  /\ recording Stub.resample (Stub.say ["hi"%string]) ph initial
     = recording Stub.resample (Stub.say ["hi"%string]) ph s'.
Proof.
  intros ph s'. split; [ reflexivity | ].
  apply (recording_clean_slate Stub.resample (Stub.say ["hi"%string]) ph
           initial s').
  reflexivity.
Defined.

(** X9. After a recording, whatever the chunks received, the resampler
    and the engine, and also when the recording ends with an exception, the
    window holds at most [CONTEXT_SEC * RATE_OUT] samples. *)
Theorem recording_window_bounded :
  forall (resample : list F32.t -> Z -> Z -> list F32.t)
         (transcribe : list F32.t -> string + list string)
         (ph : phase) (s : locals),
    Z.of_nat (List.length
                (buf_pcm16k (after (recording resample transcribe ph) s)))
    <= CONTEXT_SEC * RATE_OUT.
Proof.
  intros resample transcribe ph s. fold max_samples.
  unfold after. rewrite recording_run.
  pose proof (recording_tail_after resample transcribe (events ph)
                (enter_pressed ph) (fresh (start_time ph) s)) as Htail.
  unfold after in Htail.
  destruct (bind _ _ _) as [[r s2] l]. cbn [fst snd] in *. rewrite Htail.
  apply record_loop_window_bound. rewrite max_samples_eq. cbn. lia.
Qed.

(** X10. During the recording loop the same text is never sent twice in a
    row, an empty text is never sent, the first text sent differs from the
    last emitted text the loop started with, and the loop ends with the last
    text it sent as its last emitted text. *)
Theorem record_loop_never_repeats :
  forall (resample : list F32.t -> Z -> Z -> list F32.t)
         (transcribe : list F32.t -> string + list string)
         (evs : list event) (s : locals),
    let l := texts (calls (record_loop resample transcribe evs) s) in
    no_repeat (last_terminal s :: l)
    /\ Forall (fun t => t <> EmptyString) l
    /\ last_terminal (after (record_loop resample transcribe evs) s)
       = last l (last_terminal s).
Proof.
  intros resample transcribe evs s. apply record_loop_texts.
Qed.

(** ** What every call of a computation satisfies *)

Section Every.

Variable P : call -> Prop.

Lemma every_ret {A} (a : A) : every P (ret a).
Proof. intros s. constructor. Qed.

Lemma every_raise {A} (e : exn) : every P (@raise A e).
Proof. intros s. constructor. Qed.

Lemma every_get : every P get.
Proof. intros s. constructor. Qed.

Lemma every_modify f : every P (modify f).
Proof. intros s. constructor. Qed.

Lemma every_perform c : P c -> every P (perform c).
Proof. intros Hc s. repeat constructor. exact Hc. Qed.

Lemma every_bind {A B} (c : M A) (k : A -> M B) :
  every P c -> (forall a, every P (k a)) -> every P (bind c k).
Proof.
  intros Hc Hk s. specialize (Hc s). unfold calls, bind in *.
  destruct (c s) as [[[a | e] s1] la]; cbn [snd] in *; [ | exact Hc ].
  specialize (Hk a s1). unfold calls in Hk.
  destruct (k a s1) as [[r2 s2] lb]; cbn [snd] in *.
  apply Forall_app. now split.
Qed.

Lemma every_try_except {A} (body : M A) handler :
  every P body -> (forall e h, handler e = Some h -> every P h) ->
  every P (try_except body handler).
Proof.
  intros Hb Hh s. specialize (Hb s). unfold calls, try_except in *.
  destruct (body s) as [[[a | e] s1] la]; cbn [snd] in *; [ exact Hb | ].
  destruct (handler e) as [ h | ] eqn:Hhe; [ | exact Hb ].
  specialize (Hh e h Hhe s1). unfold calls in Hh.
  destruct (h s1) as [[r2 s2] lb]; cbn [snd] in *.
  apply Forall_app. now split.
Qed.

Lemma every_try_finally {A} (body : M A) fin :
  every P body -> (forall r, every P (fin r)) ->
  every P (try_finally body fin).
Proof.
  intros Hb Hf s. specialize (Hb s). unfold calls, try_finally in *.
  destruct (body s) as [[r s1] la]; cbn [snd] in *.
  specialize (Hf r s1). unfold calls in Hf.
  destruct (fin r s1) as [[r2 s2] lb]; cbn [snd] in *.
  apply Forall_app. now split.
Qed.

End Every.

(** A sequence is split into its steps (syntactically: the steps are not
    unfolded). *)
Ltac split_binds :=
  repeat match goal with
         | |- every _ (bind _ _) => apply every_bind; [ | intros ]
         end.

Lemma calls_bind {A B} (c : M A) (k : A -> M B) (s : locals) :
  calls (bind c k) s
  = calls c s ++ match result c s with
                 | Ret a => calls (k a) (after c s)
                 | Raise _ => []
                 end.
Proof.
  unfold calls, result, after, bind.
  destruct (c s) as [[[a | e] s1] la]; cbn [fst snd].
  - destruct (k a s1) as [[r2 s2] lb]. reflexivity.
  - now rewrite app_nil_r.
Qed.

Lemma result_bind {A B} (c : M A) (k : A -> M B) (s : locals) :
  result (bind c k) s
  = match result c s with
    | Ret a => result (k a) (after c s)
    | Raise e => Raise e
    end.
Proof.
  unfold result, after, bind.
  destruct (c s) as [[[a | e] s1] la]; cbn [fst snd]; [ | reflexivity ].
  destruct (k a s1) as [[r2 s2] lb]. reflexivity.
Qed.

Lemma controls_app (l1 l2 : list call) :
  controls (l1 ++ l2) = controls l1 ++ controls l2.
Proof. apply flat_map_app. Qed.

Lemma controls_none (l : list call) : Forall not_control l -> controls l = [].
Proof.
  induction 1 as [ | c l Hc _ IH ]; [ reflexivity | ].
  unfold controls in *. cbn [flat_map]. now rewrite Hc, IH.
Qed.

Lemma append_trim_nonempty {A} (buf up : list A) :
  up <> [] -> append_trim buf up <> [].
Proof.
  intros Hup Hnil. destruct up as [ | x up ]; [ congruence | ].
  apply (f_equal (fun l => Z.of_nat (List.length l))) in Hnil.
  rewrite append_trim_length, max_samples_eq in Hnil. cbn [List.length] in Hnil.
  lia.
Qed.

Section MainFacts.

Variable resample : list F32.t -> Z -> Z -> list F32.t.
Variable transcribe : list F32.t -> string + list string.

Lemma every_record_loop (P : call -> Prop) :
  (forall ev, every P (loop_body resample transcribe ev)) ->
  forall evs, every P (record_loop resample transcribe evs).
Proof.
  intros Hbody evs. induction evs as [ | ev evs IH ]; cbn [record_loop].
  - apply every_ret.
  - apply every_bind; [ apply Hbody | ].
    intros [ ]; [ exact IH | apply every_ret ].
Qed.

Lemma every_cancel_stop_task (P : call -> Prop) pressed r :
  P CancelStopTask -> every P (cancel_stop_task pressed r).
Proof.
  intros HP. unfold cancel_stop_task.
  destruct (negb _); [ now apply every_perform | apply every_ret ].
Qed.

(** From the iterations of the loop and the finalizing step to [main]. *)
Lemma every_main (P : call -> Prop) :
  (forall c, is_message c = false -> is_transcribe c = false -> P c) ->
  P (SendMessage 0x30 (Packed 1)) ->
  P (SendMessage 0x31 (Encoded "Listening...")) ->
  (forall ev, every P (loop_body resample transcribe ev)) ->
  every P (finalizing transcribe) ->
  forall phases, every P (main resample transcribe phases).
Proof.
  intros Hother Hon Hlisten Hbody Hfin phases.
  assert (Hperform : forall c, is_message c = false ->
                               is_transcribe c = false -> every P (perform c)).
  { intros c H1 H2. apply every_perform. now apply Hother. }
  assert (Hrec : forall ph, every P (recording resample transcribe ph)).
  { intros ph. unfold recording, print, send_message.
    split_binds;
      try apply every_modify; try (apply Hperform; reflexivity);
      try (apply every_perform; assumption).
    - apply every_try_finally; [ now apply every_record_loop | ].
      intros r. apply every_cancel_stop_task. now apply Hother.
    - exact Hfin. }
  assert (Hses : every P (session resample transcribe phases)).
  { induction phases as [ | ph phases IH ]; cbn [session].
    - apply every_bind; [ now apply Hperform | intros; apply every_raise ].
    - apply every_bind; [ apply Hrec | intros; exact IH ]. }
  unfold main. apply every_try_finally.
  - apply every_try_except.
    + apply every_bind; [ | intros; exact Hses ].
      unfold startup, print.
      split_binds;
        try apply every_modify; apply Hperform; reflexivity.
    + intros e h Hh. unfold handlers, print in Hh.
      destruct e; injection Hh as <-;
        split_binds; apply Hperform; reflexivity.
  - intros _. unfold cleanup, print.
    split_binds; try apply every_get.
    all: try (apply Hperform; reflexivity).
    destruct (rx_audio _); [ now apply Hperform | apply every_ret ].
Qed.

Lemma loop_body_texts_not_empty ev :
  every text_not_empty (loop_body resample transcribe ev).
Proof.
  intros s. unfold calls.
  destruct (loop_body_outcome resample transcribe ev s)
    as [ r s1 Hw Hlt Hb | pcm msg s1 Hp Hw Hlt Hres
       | pcm segs s1 Hp Hw Hlt Hres Hemit
       | pcm segs s1 Hp Hw Hlt Hres Hemit ]; cbn [snd];
    repeat constructor.
  unfold should_emit in Hemit. apply andb_prop in Hemit as [Ht _].
  now apply truthy_spec.
Qed.

Lemma finalizing_texts_not_empty :
  every text_not_empty (finalizing transcribe).
Proof.
  intros s. unfold calls. rewrite finalizing_run.
  destruct (buf_pcm16k s) as [ | x w ]; [ repeat constructor | ].
  cbv zeta. destruct (transcribe (x :: w)) as [ msg | segments ];
    [ repeat constructor; discriminate | ].
  destruct (truthy (strip (join segments))) eqn:Ht;
    repeat constructor; try discriminate.
  now apply truthy_spec.
Qed.

Lemma loop_body_decodes_nonempty ev :
  (forall a, a <> [] -> resample a RATE_IN RATE_OUT <> []) ->
  every decodes_nonempty (loop_body resample transcribe ev).
Proof.
  intros Hres s. unfold calls.
  destruct (loop_body_outcome resample transcribe ev s)
    as [ r s1 Hw Hlt Hb | pcm msg s1 Hp Hw Hlt Hr
       | pcm segs s1 Hp Hw Hlt Hr Hemit
       | pcm segs s1 Hp Hw Hlt Hr Hemit ]; cbn [snd];
    repeat constructor; cbn; rewrite Hw;
    apply append_trim_nonempty; now apply Hres.
Qed.

Lemma finalizing_decodes_nonempty :
  every decodes_nonempty (finalizing transcribe).
Proof.
  intros s. unfold calls. rewrite finalizing_run.
  destruct (buf_pcm16k s) as [ | x w ] eqn:Hw; [ repeat constructor | ].
  cbv zeta. destruct (transcribe (x :: w)) as [ msg | segments ];
    [ repeat constructor; discriminate | ].
  destruct (truthy (strip (join segments)));
    repeat constructor; discriminate.
Qed.

End MainFacts.

(** ** The whole run *)

(** X11. The engine is never given an empty window, in the recording loop
    or in the finalizing step, provided the resampler returns a block that
    is not empty for a block that is not empty. *)
Theorem engine_never_given_empty_window :
  forall (resample : list F32.t -> Z -> Z -> list F32.t)
         (transcribe : list F32.t -> string + list string)
         (phases : list phase) (s : locals),
    (forall a, a <> [] -> resample a RATE_IN RATE_OUT <> []) ->
    Forall decodes_nonempty (calls (main resample transcribe phases) s).
Proof.
  intros resample transcribe phases s Hres.
  apply every_main.
  - intros c _ Hc. destruct c; try exact I. discriminate Hc.
  - exact I.
  - exact I.
  - intros ev. now apply loop_body_decodes_nonempty.
  - apply finalizing_decodes_nonempty.
Qed.

Lemma engine_never_given_empty_window_witness :
  let ph := {| start_time := 0%float;
               events := [Packet [x00; x40] 2%float 2%float; Packet [] 4%float 4%float];
               enter_pressed := true |} in
  (forall a, a <> [] -> Stub.resample a RATE_IN RATE_OUT <> [])
  /\ Forall decodes_nonempty
       (calls (main Stub.resample (Stub.say ["hi"%string]) [ph]) initial).
Proof.
  intros ph.
  assert (H : forall a, a <> [] -> Stub.resample a RATE_IN RATE_OUT <> []).
  { intros a Ha. destruct a as [ | x a ]; [ congruence | discriminate ]. }
  split; [ exact H | ].
  apply (engine_never_given_empty_window Stub.resample
           (Stub.say ["hi"%string]) [ph] initial H).
Defined.

(** X12. [main] never sends an empty text: every text message it sends,
    status, partial transcript or final transcript, carries at least one
    character. *)
Theorem main_never_sends_empty_text :
  forall (resample : list F32.t -> Z -> Z -> list F32.t)
         (transcribe : list F32.t -> string + list string)
         (phases : list phase) (s : locals),
    Forall text_not_empty (calls (main resample transcribe phases) s).
Proof.
  intros resample transcribe phases s.
  apply every_main.
  - intros c Hc _. destruct c; try exact I. discriminate Hc.
  - exact I.
  - cbn. discriminate.
  - apply loop_body_texts_not_empty.
  - apply finalizing_texts_not_empty.
Qed.

Section ControlFacts.

Variable resample : list F32.t -> Z -> Z -> list F32.t.
Variable transcribe : list F32.t -> string + list string.

Lemma loop_body_not_control ev :
  every not_control (loop_body resample transcribe ev).
Proof.
  intros s. unfold calls.
  destruct (loop_body_outcome resample transcribe ev s)
    as [ r s1 Hw Hlt Hb | pcm msg s1 Hp Hw Hlt Hres
       | pcm segs s1 Hp Hw Hlt Hres Hemit
       | pcm segs s1 Hp Hw Hlt Hres Hemit ]; cbn [snd];
    repeat constructor.
Qed.

Lemma recording_loop_controls evs pressed s :
  controls (calls (try_finally (record_loop resample transcribe evs)
                     (cancel_stop_task pressed)) s) = [].
Proof.
  apply controls_none. revert s.
  apply every_try_finally.
  - apply every_record_loop. apply loop_body_not_control.
  - intros r. now apply every_cancel_stop_task.
Qed.

Lemma finalizing_controls s :
  controls (calls (finalizing transcribe) s) = [0].
Proof.
  unfold calls. rewrite finalizing_run.
  destruct (buf_pcm16k s) as [ | x w ]; [ reflexivity | ].
  cbv zeta. destruct (transcribe (x :: w)) as [ msg | segments ];
    [ reflexivity | ].
  destruct (truthy (strip (join segments))); reflexivity.
Qed.

Lemma recording_calls ph s :
  calls (recording resample transcribe ph) s
  = [Input "Press Enter to start recording: ";
     Print "Starting recording...";
     SendMessage 0x30 (Packed 1);
     SendMessage 0x31 (Encoded "Listening...");
     Print "Recording... (Press Enter to stop)";
     CreateStopTask]
    ++ calls (bind (try_finally (record_loop resample transcribe (events ph))
                      (cancel_stop_task (enter_pressed ph)))
                   (fun _ => finalizing transcribe))
         (fresh (start_time ph) s)
  /\ result (recording resample transcribe ph) s
     = result (bind (try_finally (record_loop resample transcribe (events ph))
                       (cancel_stop_task (enter_pressed ph)))
                    (fun _ => finalizing transcribe))
         (fresh (start_time ph) s).
Proof.
  unfold calls, result. rewrite recording_run.
  destruct (bind _ _ _) as [[r s2] l]. split; reflexivity.
Qed.

(** One recording switches the device on, and off again unless the
    recording loop raises. *)
Lemma recording_controls ph s :
  controls (calls (recording resample transcribe ph) s) = [1; 0]
  \/ (controls (calls (recording resample transcribe ph) s) = [1]
      /\ exists e, result (recording resample transcribe ph) s = Raise e).
Proof.
  destruct (recording_calls ph s) as [-> ->].
  rewrite calls_bind, result_bind, !controls_app, recording_loop_controls.
  destruct (result _ _) as [ a | e ].
  - left. rewrite finalizing_controls. reflexivity.
  - right. split; [ reflexivity | ]. now exists e.
Qed.

Lemma on_off_succ n open : [1; 0] ++ on_off n open = on_off (S n) open.
Proof. reflexivity. Qed.

Lemma session_controls phases : forall s,
  exists n open,
    controls (calls (session resample transcribe phases) s) = on_off n open
    /\ (n <= List.length phases)%nat.
Proof.
  induction phases as [ | ph phases IH ]; intros s.
  - exists O, false. split; [ reflexivity | lia ].
  - cbn [session]. rewrite calls_bind, controls_app.
    destruct (recording_controls ph s) as [ Hrec | [Hrec [e He]] ]; rewrite Hrec.
    + destruct (result (recording resample transcribe ph) s) as [ a | e ].
      * destruct (IH (after (recording resample transcribe ph) s))
          as (n & open & Hn & Hle).
        exists (S n), open. rewrite Hn. split; [ apply on_off_succ | cbn; lia ].
      * exists 1%nat, false. split; [ reflexivity | cbn; lia ].
    + rewrite He. exists O, true. split; [ reflexivity | lia ].
Qed.

End ControlFacts.

(** ** Decode errors in the whole run *)

Section FailedDecode.

Variable resample : list F32.t -> Z -> Z -> list F32.t.
Variable transcribe : list F32.t -> string + list string.





End FailedDecode.




(** X13. Over the whole run the "recording on" and "recording off" signals
    alternate, starting with "on": the control signals sent are some number
    of on/off pairs, at most one per recording, possibly followed by one
    last "on" that nothing switches off. *)
Theorem control_signals_alternate :
  forall (resample : list F32.t -> Z -> Z -> list F32.t)
         (transcribe : list F32.t -> string + list string)
         (phases : list phase) (s : locals),
    exists (n : nat) (open : bool),
      controls (calls (main resample transcribe phases) s) = on_off n open
      /\ (n <= List.length phases)%nat.
Proof.
  intros resample transcribe phases s.
  pose proof (rx_audio_attached resample transcribe phases s) as Hrx.
  pose proof (calls_bind startup
                (fun _ => session resample transcribe phases) s) as Hc.
  assert (Hstart : controls (calls startup s) = []) by reflexivity.
  assert (Hbody : exists n open,
             controls (calls (bind startup
                                (fun _ => session resample transcribe phases)) s)
             = on_off n open /\ (n <= List.length phases)%nat).
  { rewrite Hc, controls_app, Hstart. cbn [app].
    destruct (result startup s) as [ a | e ].
    - apply session_controls.
    - exists O, false. split; [ reflexivity | lia ]. }
  destruct Hbody as (n & open & Hn & Hle). exists n, open.
  split; [ | exact Hle ]. rewrite <- Hn.
  unfold calls, after, main, try_finally, try_except in *.
  destruct (bind startup (fun _ => session resample transcribe phases) s)
    as [[r sb] lb].
  cbn [fst snd] in *.
  destruct r as [ a | e ].
  - destruct (handlers_then_cleanup KeyboardInterrupt sb Hrx)
      as (_ & _ & _ & _ & Hcl & _ & _).
    rewrite Hcl. cbn [fst snd]. rewrite controls_app. cbn. apply app_nil_r.
  - destruct (handlers_then_cleanup e sb Hrx)
      as (h & lh & Hh & Hrun & Hcl & _ & _).
    rewrite Hh, Hrun, Hcl. cbn [fst snd]. rewrite !controls_app.
    assert (Hlh : controls lh = []).
    { destruct e; unfold handlers, print, bind, perform in Hh;
        injection Hh as <-; cbn in Hrun; injection Hrun as <-; reflexivity. }
    rewrite Hlh. cbn. now rewrite !app_nil_r.
Qed.

(** X14. [main] lets no exception escape and always ends by releasing the
    device: whatever the recordings and the failures of the conversion or
    of the engine, it returns normally and its last calls detach the audio
    receiver and the print handler, stop the device app and disconnect. *)
Theorem main_always_releases :
  forall (resample : list F32.t -> Z -> Z -> list F32.t)
         (transcribe : list F32.t -> string + list string)
         (phases : list phase) (s : locals),
    result (main resample transcribe phases) s = Ret tt
    /\ exists before,
         calls (main resample transcribe phases) s = before ++ release_calls.
Proof.
  intros resample transcribe phases s.
  pose proof (rx_audio_attached resample transcribe phases s) as Hrx.
  unfold calls, result, after, main, try_finally, try_except in *.
  destruct (bind startup (fun _ => session resample transcribe phases) s)
    as [[r sb] lb].
  cbn [fst snd] in *.
  destruct r as [ [] | e ].
  - destruct (handlers_then_cleanup KeyboardInterrupt sb Hrx)
      as (_ & _ & _ & _ & Hcl & _ & _).
    rewrite Hcl. cbn [fst snd]. split; [ reflexivity | now exists lb ].
  - destruct (handlers_then_cleanup e sb Hrx)
      as (h & lh & Hh & Hrun & Hcl & _ & _).
    rewrite Hh, Hrun, Hcl. cbn [fst snd].
    split; [ reflexivity | now exists (lb ++ lh) ].
Qed.

(** ** Well-formed and malformed chunks *)

(** X15. A tick at which the raw buffer does not hold whole samples is
    fatal: the iteration raises a [ValueError] before anything is cleared,
    decoded or sent, the bytes stay in the buffer, the window is untouched,
    and the recording loop ends there whatever would have followed. *)
Theorem torn_sample_is_fatal :
  forall (resample : list F32.t -> Z -> Z -> list F32.t)
         (transcribe : list F32.t -> string + list string)
         (s : locals) (pkt : list byte) (now now' : float)
         (rest : list event),
    tick now s = true ->
    Nat.even (List.length (buf_pcm8k s ++ pkt)) = false ->
    let step := loop_body resample transcribe (Packet pkt now now') in
    (exists msg, result step s = Raise (ValueError msg))
    /\ calls step s = []
    /\ buf_pcm8k (after step s) = buf_pcm8k s ++ pkt
    /\ buf_pcm16k (after step s) = buf_pcm16k s
    /\ (exists msg,
          result (record_loop resample transcribe (Packet pkt now now' :: rest)) s
          = Raise (ValueError msg)).
Proof.
  intros resample transcribe s pkt now now' rest Htick Hodd step.
  assert (Hconv : pcm16_to_f32 (buf_pcm8k s ++ pkt) = None)
    by now apply pcm16_to_f32_raises_iff_odd.
  pose proof (loop_body_tick_malformed resample transcribe s pkt now now'
                Htick Hconv) as Hrun.
  unfold step, result, calls, after. rewrite record_loop_cons, Hrun.
  cbn [fst snd].
  split; [ eexists; reflexivity | ]. repeat split. eexists; reflexivity.
Qed.

Lemma torn_sample_is_fatal_witness :
  let step := loop_body Stub.resample (Stub.say ["hi"%string])
                (Packet [x00; x40; x01] 2%float 2%float) in
  tick 2%float initial = true
  /\ Nat.even (List.length (buf_pcm8k initial ++ [x00; x40; x01])) = false
  /\ calls step initial = []
  /\ buf_pcm8k (after step initial) = [x00; x40; x01].
Proof.
  intros step. split; [ reflexivity | ]. split; [ reflexivity | ].
  destruct (torn_sample_is_fatal Stub.resample (Stub.say ["hi"%string])
              initial [x00; x40; x01] 2%float 2%float [] eq_refl eq_refl)
    as (_ & Hcalls & Hbuf & _).
  split; [ exact Hcalls | exact Hbuf ].
Defined.

Section WellFormed.

Variable resample : list F32.t -> Z -> Z -> list F32.t.
Variable transcribe : list F32.t -> string + list string.
Hypothesis engine_total : forall w, exists segments, transcribe w = inr segments.

Lemma even_length_app (a b : list byte) :
  Nat.even (List.length a) = true -> Nat.even (List.length b) = true ->
  Nat.even (List.length (a ++ b)) = true.
Proof.
  intros Ha Hb. rewrite length_app, Nat.even_add, Ha, Hb. reflexivity.
Qed.

Lemma loop_body_well_formed ev s :
  Nat.even (List.length (buf_pcm8k s)) = true -> whole_samples ev ->
  exists f s1 l,
    loop_body resample transcribe ev s = (Ret f, s1, l)
    /\ Nat.even (List.length (buf_pcm8k s1)) = true.
Proof.
  intros Hs Hev. destruct ev as [ | pkt now now' | ].
  - rewrite loop_body_timeout. now exists Next, s, [].
  - cbn [whole_samples] in Hev.
    pose proof (even_length_app _ _ Hs Hev) as Hbuf.
    destruct (tick now s) eqn:Htick.
    + destruct (pcm16_to_f32_total _ Hbuf) as (pcm_f32 & Hconv).
      rewrite (loop_body_tick _ _ _ _ _ _ _ Htick Hconv).
      destruct pcm_f32 as [ | x a ]; [ now eexists _, _, _ | ].
      cbv zeta. destruct (engine_total (append_trim (buf_pcm16k s)
                            (resample (x :: a) RATE_IN RATE_OUT)))
        as [segments Hseg].
      rewrite Hseg. destruct (should_emit _ _); now eexists _, _, _.
    + rewrite (loop_body_no_tick _ _ _ _ _ _ Htick). now eexists _, _, _.
  - rewrite loop_body_end_of_stream. now exists Break, s, [].
Qed.

Lemma record_loop_well_formed evs : forall s,
  Nat.even (List.length (buf_pcm8k s)) = true -> Forall whole_samples evs ->
  exists e, result (record_loop resample transcribe evs) s = Ret e.
Proof.
  induction evs as [ | ev evs IH ]; intros s Hs Hevs.
  - now exists StopRequested.
  - inversion Hevs as [ | ? ? Hev Hrest ]; subst.
    unfold result. rewrite record_loop_cons.
    destruct (loop_body_well_formed ev s Hs Hev) as (f & s1 & l & Hrun & Hs1).
    rewrite Hrun. destruct f; [ | now exists StreamEnded ].
    destruct (IH s1 Hs1 Hrest) as [e He]. unfold result in He.
    destruct (record_loop resample transcribe evs s1) as [[r2 s2] l2].
    cbn [fst] in *. now exists e.
Qed.

Lemma finalizing_returns s : result (finalizing transcribe) s = Ret tt.
Proof.
  unfold result. rewrite finalizing_run.
  destruct (buf_pcm16k s) as [ | x w ]; [ reflexivity | ].
  cbv zeta. destruct (engine_total (x :: w)) as [segments ->]. reflexivity.
Qed.

Lemma recording_returns ph s :
  Forall whole_samples (events ph) ->
  result (recording resample transcribe ph) s = Ret tt.
Proof.
  intros Hevs. destruct (recording_calls resample transcribe ph s) as [_ ->].
  rewrite result_bind.
  destruct (record_loop_well_formed (events ph) (fresh (start_time ph) s)
              eq_refl Hevs) as [e He].
  assert (Htf : result (try_finally
                          (record_loop resample transcribe (events ph))
                          (cancel_stop_task (enter_pressed ph)))
                  (fresh (start_time ph) s) = Ret e).
  { unfold result, try_finally, cancel_stop_task in *.
    destruct (record_loop resample transcribe (events ph)
                (fresh (start_time ph) s)) as [[r s1] l].
    cbn [fst] in He. subst r. destruct (negb _); reflexivity. }
  rewrite Htf. apply finalizing_returns.
Qed.

End WellFormed.

(** X16. A recording runs to its end when its input is well formed: if
    every chunk holds whole 16-bit samples and the engine does not fail,
    the recording returns normally, whatever the timing of the chunks, the
    timeouts and the end-of-stream markers. *)
Theorem well_formed_recording_returns :
  forall (resample : list F32.t -> Z -> Z -> list F32.t)
         (transcribe : list F32.t -> string + list string)
         (ph : phase) (s : locals),
    (forall w, exists segments, transcribe w = inr segments) ->
    Forall whole_samples (events ph) ->
    result (recording resample transcribe ph) s = Ret tt.
Proof.
  intros resample transcribe ph s Htotal Hevs.
  now apply recording_returns.
Qed.

Lemma well_formed_recording_returns_witness :
  let ph := {| start_time := 0%float;
               events := [Packet [x00; x40] 2%float 2%float; Timeout;
                          Packet [xff; x7f; x00; x80] 4%float 4%float];
               enter_pressed := true |} in
  (forall w, exists segments, Stub.say ["hi"%string] w = inr segments)
  /\ Forall whole_samples (events ph)
  /\ result (recording Stub.resample (Stub.say ["hi"%string]) ph) initial
     = Ret tt.
Proof.
  intros ph.
  assert (H1 : forall w, exists segments,
               Stub.say ["hi"%string] w = inr segments)
    by (intros w; now exists ["hi"%string]).
  assert (H2 : Forall whole_samples (events ph))
    by (repeat constructor).
  split; [ exact H1 | ]. split; [ exact H2 | ].
  apply (well_formed_recording_returns Stub.resample (Stub.say ["hi"%string])
           ph initial H1 H2).
Defined.

(** ** The device app *)

Lemma substring_empty n m : substring n m EmptyString = EmptyString.
Proof. destruct n, m; reflexivity. Qed.

Lemma substring_beyond s : forall n m,
  (String.length s <= n)%nat -> substring n m s = EmptyString.
Proof.
  induction s as [ | c s IH ]; intros n m Hn; [ apply substring_empty | ].
  destruct n as [ | n ]; cbn in Hn; [ lia | ].
  cbn [substring]. apply IH. lia.
Qed.

Lemma substring_from_0 a : forall b s,
  (substring 0 a s ++ substring a b s)%string = substring 0 (a + b) s.
Proof.
  induction a as [ | a IH ]; intros b s.
  - destruct s; reflexivity.
  - destruct s as [ | c s ]; [ now rewrite !substring_empty | ].
    cbn [substring Nat.add String.append]. now rewrite IH.
Qed.

Lemma substring_app n : forall a b s,
  (substring n a s ++ substring (n + a) b s)%string = substring n (a + b) s.
Proof.
  induction n as [ | n IH ]; intros a b s; [ apply substring_from_0 | ].
  destruct s as [ | c s ]; [ now rewrite !substring_empty | ].
  cbn [substring Nat.add]. apply IH.
Qed.

Lemma substring_length s : forall n m,
  String.length (substring n m s) = Nat.min m (String.length s - n).
Proof.
  induction s as [ | c s IH ]; intros n m.
  - rewrite substring_empty. cbn. lia.
  - destruct n as [ | n ]; cbn [substring String.length].
    + destruct m as [ | m ]; [ reflexivity | ].
      cbn [String.length]. rewrite IH. lia.
    + rewrite IH. cbn. lia.
Qed.

Lemma substring_clip s : forall n m m',
  (String.length s <= n + m)%nat -> (String.length s <= n + m')%nat ->
  substring n m s = substring n m' s.
Proof.
  induction s as [ | c s IH ]; intros n m m' Hm Hm'.
  - now rewrite !substring_empty.
  - destruct n as [ | n ]; cbn [substring String.length] in *.
    + destruct m as [ | m ]; [ lia | ]. destruct m' as [ | m' ]; [ lia | ].
      f_equal. apply IH; lia.
    + apply IH; lia.
Qed.

Lemma append_empty_r s : (s ++ "")%string = s.
Proof. induction s as [ | c s IH ]; cbn; [ reflexivity | now rewrite IH ]. Qed.

(** The line cut at [start] is the 40 bytes from there, or what is left. *)
Lemma string_sub_line text start :
  1 <= start <= Z.of_nat (String.length text) ->
  string_sub text start (start + line_length - 1)
  = substring (Z.to_nat (start - 1)) 40 text.
Proof.
  intros Hs. unfold string_sub, posrelat, line_length.
  destruct (Z.geb_spec start 0); [ | lia ].
  destruct (Z.geb_spec (start + 40 - 1) 0); [ | lia ].
  destruct (Z.ltb_spec start 1); [ lia | ].
  destruct (Z.gtb_spec (start + 40 - 1) (Z.of_nat (String.length text))).
  - destruct (Z.leb_spec start (Z.of_nat (String.length text))); [ | lia ].
    apply substring_clip; lia.
  - destruct (Z.leb_spec start (start + 40 - 1)); [ | lia ].
    f_equal. lia.
Qed.

Lemma wrap_loop_lines fuel : forall (n : nat) text start,
  (1 <= n)%nat -> 1 <= start ->
  Z.of_nat (String.length text) - start + 1 <= 40 * Z.of_nat fuel ->
  let lines := wrap_loop fuel text (290 - 40 * Z.of_nat n) start in
  join (flat_map drawn_text lines)
  = substring (Z.to_nat (start - 1)) (40 * n) text
  /\ (List.length lines <= n)%nat
  /\ Forall (fun t => (1 <= String.length t <= 40)%nat)
       (flat_map drawn_text lines).
Proof.
  induction fuel as [ | fuel IH ]; intros n text start Hn Hstart Hfuel.
  - cbn. rewrite substring_beyond by lia. repeat split; [ lia | constructor ].
  - cbn [wrap_loop].
    destruct (Z.leb_spec start (Z.of_nat (String.length text))) as [Hle | Hgt].
    + cbv zeta. rewrite string_sub_line by lia.
      assert (Hline : (1 <= String.length
                              (substring (Z.to_nat (start - 1)) 40 text) <= 40)%nat).
      { rewrite substring_length. lia. }
      destruct (Z.gtb_spec (290 - 40 * Z.of_nat n + 40) 250) as [Hy | Hy].
      * assert (n = 1%nat) by lia. subst n.
        cbn [flat_map drawn_text app join fold_right List.length].
        rewrite append_empty_r. repeat split; [ lia | ].
        constructor; [ exact Hline | constructor ].
      * destruct n as [ | n ]; [ lia | ].
        replace (290 - 40 * Z.of_nat (S n) + 40) with (290 - 40 * Z.of_nat n)
          by lia.
        destruct (IH n text (start + line_length)) as (Hjoin & Hlen & Hall);
          try (unfold line_length; lia).
        cbn [flat_map drawn_text app join fold_right List.length].
        change (fold_right String.append EmptyString ?l) with (join l).
        rewrite Hjoin. unfold line_length in *.
        replace (Z.to_nat (start + 40 - 1)) with (Z.to_nat (start - 1) + 40)%nat
          by lia.
        rewrite substring_app.
        replace (40 + 40 * n)%nat with (40 * S n)%nat by lia.
        repeat split; [ lia | ]. constructor; assumption.
    + cbn. rewrite substring_beyond by lia.
      repeat split; [ lia | constructor ].
Qed.


(** X17. The device shows the first 240 bytes of a transcript and drops the
    rest without notice: the lines drawn, put end to end, are the first 240
    bytes of the text; there are at most six of them, none is empty and none
    is longer than 40 bytes. *)
Theorem transcript_truncated_to_six_lines :
  forall text : string,
    let lines := wrap_loop (S (String.length text)) text 50 1 in
    join (flat_map drawn_text lines) = substring 0 240 text
    /\ (List.length lines <= 6)%nat
    /\ Forall (fun t => (1 <= String.length t <= 40)%nat)
         (flat_map drawn_text lines).
Proof.
  intros text.
  apply (wrap_loop_lines (S (String.length text)) 6 text 1); lia.
Qed.



